(** * Structure-based sequence alignment pipeline: a shallow embedding

    The repository consists of three batch scripts:
    - [1_ce_align.py]       (module [CeAlign]):      CE-align every structure to [ref];
    - [2_seq_alignment.py]  (module [SeqAlignment]): distance-threshold residue pairing;
    - [3_msa_generator.py]  (module [MsaGenerator]): merge the pairwise FASTA files.

    The molecular toolkit (PyMOL), the file system and the logging sink are
    external to the repository.  Their answers are taken as parameters
    (records of functions), and every call the scripts make to them is
    recorded in an event trace. *)

From Stdlib Require Import Ascii String ZArith Lia Permutation Sorted.
From stdpp Require Import gmap strings list.

(** ** Exceptions and outcomes *)

Inductive exn :=
  | TypeError
  | IndexError
  | ToolkitError (what : string)
  | OSError (what : string).

Inductive outcome (A : Type) :=
  | Ok (a : A)
  | Raise (e : exn).
Arguments Ok {A} a.
Arguments Raise {A} e.

(** ** Python built-ins used by the scripts *)

Module Py.

(** A Python [str] is modelled by a Rocq [string] whose characters are the
    code points 0..255. *)

Definition code (c : ascii) : nat := nat_of_ascii c.

Definition in_range (lo hi n : nat) : bool := (lo <=? n) && (n <=? hi).

(** [str.isspace] on one code point below 256:
    U+0009..U+000D, U+001C..U+0020, U+0085 and U+00A0. *)
Definition isspace (c : ascii) : bool :=
  let n := code c in
  in_range 9 13 n || in_range 28 32 n || (n =? 133) || (n =? 160).

(** The line boundaries of [str.splitlines] below 256:
    LF, VT, FF, CR, FS, GS, RS and NEL. *)
Definition is_linebreak (c : ascii) : bool :=
  let n := code c in
  in_range 10 13 n || in_range 28 30 n || (n =? 133).

Definition LF : ascii := ascii_of_nat 10.
Definition CR : ascii := ascii_of_nat 13.
Definition nl : string := String LF "".

Definition is_lf (c : ascii) : bool := code c =? 10.
Definition is_cr (c : ascii) : bool := code c =? 13.

(** [s.startswith(">")] *)
Definition startswith_gt (s : string) : bool :=
  match s with
  | String c _ => code c =? 62
  | EmptyString => false
  end.

(** [s[1:]] *)
Definition tail (s : string) : string :=
  match s with
  | String _ r => r
  | EmptyString => EmptyString
  end.

Fixpoint lstrip (s : string) : string :=
  match s with
  | String c r => if isspace c then lstrip r else s
  | EmptyString => EmptyString
  end.

Fixpoint rstrip (s : string) : string :=
  match s with
  | String c r =>
      match rstrip r with
      | EmptyString => if isspace c then EmptyString else String c EmptyString
      | r' => String c r'
      end
  | EmptyString => EmptyString
  end.

(** [s.strip()] *)
Definition strip (s : string) : string := rstrip (lstrip s).

(** [s.splitlines()]: the text is cut at every line boundary, CR LF counts
    as one boundary, and a boundary at the very end opens no further line. *)
Fixpoint splitlines (s : string) : list string :=
  match s with
  | EmptyString => []
  | String c r =>
      if is_linebreak c then
        if is_cr c then
          match r with
          | String d r' => if is_lf d then EmptyString :: splitlines r'
                           else EmptyString :: splitlines r
          | EmptyString => [EmptyString]
          end
        else EmptyString :: splitlines r
      else
        match splitlines r with
        | [] => [String c EmptyString]
        | l :: ls => String c l :: ls
        end
  end.

(** Reading a file opened in text mode ([open(filename, 'r')]): universal
    newlines turn CR LF and a lone CR into LF. *)
Fixpoint universal_newlines (s : string) : string :=
  match s with
  | EmptyString => EmptyString
  | String c r =>
      if is_cr c then
        match r with
        | String d r' => if is_lf d then String LF (universal_newlines r')
                         else String LF (universal_newlines r)
        | EmptyString => nl
        end
      else String c (universal_newlines r)
  end.

(** [''.join(parts)] *)
Definition join (parts : list string) : string :=
  fold_right String.append EmptyString parts.

(** [s.upper()].  The result of upper-casing one code point is a string:
    U+00DF becomes "SS".  U+00B5 and U+00FF, whose upper-case forms lie above
    255, are left as they are; neither they nor their images are ASCII, so no
    comparison with an ASCII key is affected. *)
Definition upper_char (c : ascii) : string :=
  let n := code c in
  if in_range 97 122 n then String (ascii_of_nat (n - 32)) EmptyString
  else if n =? 223 then "SS"
  else if in_range 224 254 n && negb (n =? 247)
       then String (ascii_of_nat (n - 32)) EmptyString
  else String c EmptyString.

Fixpoint upper (s : string) : string :=
  match s with
  | EmptyString => EmptyString
  | String c r => upper_char c +:+ upper r
  end.

(** [int(s)] for a [str] argument.  White space at both ends is skipped;
    for [int] that is, below 256, U+0009..U+000D, U+0020, U+0085 and U+00A0
    (U+001C..U+001F, which [str.strip] removes, are no white space here).
    Then one sign is allowed, then decimal digits, where single underscores
    may stand between digits.  A literal of more than [max_str_digits]
    digits, leading zeros counted, is refused.  [None] stands for
    [ValueError]. *)
Definition int_space (c : ascii) : bool :=
  let n := code c in
  in_range 9 13 n || (n =? 32) || (n =? 133) || (n =? 160).

Fixpoint int_lstrip (s : string) : string :=
  match s with
  | String c r => if int_space c then int_lstrip r else s
  | EmptyString => EmptyString
  end.

Fixpoint int_rstrip (s : string) : string :=
  match s with
  | String c r =>
      match int_rstrip r with
      | EmptyString => if int_space c then EmptyString else String c EmptyString
      | r' => String c r'
      end
  | EmptyString => EmptyString
  end.

(** [sys.int_info.default_max_str_digits] *)
Definition max_str_digits : Z := 4300.

Definition digit_val (c : ascii) : option Z :=
  let n := code c in
  if in_range 48 57 n then Some (Z.of_nat (n - 48)) else None.

(** [count] is the number of digits read so far. *)
Fixpoint digits_from (acc count : Z) (after_digit : bool) (s : string) : option Z :=
  match s with
  | EmptyString =>
      if after_digit && (count <=? max_str_digits)%Z then Some acc else None
  | String c r =>
      match digit_val c with
      | Some d => digits_from (10 * acc + d) (count + 1) true r
      | None =>
          if (code c =? 95) && after_digit then digits_from acc count false r
          else None
      end
  end.

Definition int (s : string) : option Z :=
  match int_rstrip (int_lstrip s) with
  | String c r =>
      if code c =? 43 then digits_from 0 0 false r
      else if code c =? 45 then Z.opp <$> digits_from 0 0 false r
      else digits_from 0 0 false (String c r)
  | EmptyString => None
  end.

(** [a < b] on [str]: lexicographic on code points. *)
Definition str_lt (a b : string) : bool := String.ltb a b.

(** [d.get(k, default)] on a dict given as its list of items. *)
Fixpoint get {V} (d : list (string * V)) (k : string) (default : V) : V :=
  match d with
  | [] => default
  | (k', v) :: d' => if String.eqb k k' then v else get d' k default
  end.

(** [s.replace(old, new)] for a non-empty [old]: every occurrence found by
    scanning from the left is replaced; [skip] counts the characters of the
    occurrence just replaced that are still to be passed over. *)
Fixpoint replace_go (old new : string) (skip : nat) (s : string) : string :=
  match s with
  | EmptyString => EmptyString
  | String c r =>
      match skip with
      | S k => replace_go old new k r
      | O =>
          if String.prefix old s
          then new +:+ replace_go old new (String.length old - 1) r
          else String c (replace_go old new 0 r)
      end
  end.

Definition replace (old new s : string) : string := replace_go old new 0 s.

(** [os.path.join(a, b)] on POSIX. *)
Definition path_join (a b : string) : string :=
  if String.prefix "/" b then b
  else if String.eqb a "" then b
  else if String.eqb (String.substring (String.length a - 1) 1 a) "/" then a +:+ b
  else a +:+ "/" +:+ b.

Fixpoint has_slash (s : string) : bool :=
  match s with
  | EmptyString => false
  | String c r => (code c =? 47) || has_slash r
  end.

(** [os.path.basename(p)] on POSIX: what follows the last slash. *)
Fixpoint basename (p : string) : string :=
  match p with
  | EmptyString => EmptyString
  | String c r =>
      if has_slash r then basename r
      else if code c =? 47 then r
      else p
  end.

(** [p[:p.rfind(".")]], when [p] has a dot. *)
Fixpoint before_last_dot (p : string) : option string :=
  match p with
  | EmptyString => None
  | String c r =>
      match before_last_dot r with
      | Some root => Some (String c root)
      | None => if code c =? 46 then Some EmptyString else None
      end
  end.

Fixpoint all_dots (s : string) : bool :=
  match s with
  | EmptyString => true
  | String c r => (code c =? 46) && all_dots r
  end.

(** [os.path.splitext(p)[0]] for a [p] without directory part: the text
    before the last dot, unless only dots precede it. *)
Definition splitext_root (p : string) : string :=
  match before_last_dot p with
  | Some root => if all_dots root then p else root
  | None => p
  end.

(** [sorted(l, key=key)].  The keys need not be comparable: [lt] is [<] on
    keys and may raise.  The built-in sort is stable and compares keys with
    [<] only; it is modelled by stable insertion from the left, each element
    being placed before the first one it is smaller than. *)
Fixpoint insort {A K} (lt : K -> K -> outcome bool) (key : A -> K)
    (x : A) (l : list A) : outcome (list A) :=
  match l with
  | [] => Ok [x]
  | y :: l' =>
      match lt (key x) (key y) with
      | Raise e => Raise e
      | Ok true => Ok (x :: y :: l')
      | Ok false =>
          match insort lt key x l' with
          | Ok r => Ok (y :: r)
          | Raise e => Raise e
          end
      end
  end.

Definition sort_step {A K} (lt : K -> K -> outcome bool) (key : A -> K)
    (acc : outcome (list A)) (x : A) : outcome (list A) :=
  match acc with
  | Ok r => insort lt key x r
  | Raise e => Raise e
  end.

Definition sorted {A K} (lt : K -> K -> outcome bool) (key : A -> K)
    (l : list A) : outcome (list A) :=
  fold_left (sort_step lt key) l (Ok []).

End Py.

(** ** The program monad *)

(** A program threads a state and either returns or raises. *)
Definition M (S A : Type) : Type := S -> outcome A * S.

Section Monad.
Context {S : Type}.

Definition ret {A} (a : A) : M S A := fun s => (Ok a, s).

Definition bind {A B} (m : M S A) (k : A -> M S B) : M S B :=
  fun s =>
    match m s with
    | (Ok a, s') => k a s'
    | (Raise e, s') => (Raise e, s')
    end.

Definition raise {A} (e : exn) : M S A := fun s => (Raise e, s).

Definition lift {A} (o : outcome A) : M S A := fun s => (o, s).

(** [try: m  except Exception as e: h e] *)
Definition try_except {A} (m : M S A) (h : exn -> M S A) : M S A :=
  fun s =>
    match m s with
    | (Ok a, s') => (Ok a, s')
    | (Raise e, s') => h e s'
    end.

(** A context manager: [leave] runs however [body] ends, and an
    exception of [body] is raised again afterwards. *)
Definition with_block {A} (enter : M S unit) (leave : M S unit) (body : M S A) : M S A :=
  bind enter (fun _ =>
    fun s =>
      match body s with
      | (r, s') =>
          match leave s' with
          | (Ok _, s'') => (r, s'')
          | (Raise e, s'') => (Raise e, s'')
          end
      end).

(** [for x in l: body x] *)
Fixpoint for_each {X} (body : X -> M S unit) (l : list X) : M S unit :=
  match l with
  | [] => ret tt
  | x :: l' => bind (body x) (fun _ => for_each body l')
  end.
End Monad.

Declare Scope prog_scope.
Delimit Scope prog_scope with prog.
Notation "'do' x <- m ; k" := (bind m (fun x => k))
  (at level 10, x name, m at level 100, k at level 200) : prog_scope.
Notation "m ;; k" := (bind m (fun _ => k))
  (at level 100, k at level 200, right associativity) : prog_scope.

(** ** What the scripts do to the outside world *)

Inductive level := LInfo | LWarning | LError.

(** Calls into the toolkit's command interface [cmd]. *)
Inductive call :=
  | CLoad (file object : string)
  | CCealign (master target : string)
  | CSave (file : string)
  | CGetObjectList
  | CSelect (name expr : string)
  | CGetModel (name : string).

(** [msg] is the script's own set of log messages. *)
Inductive event (msg : Type) :=
  | EvOpen                                  (* pymol2.PyMOL().__enter__ *)
  | EvClose                                 (* pymol2.PyMOL().__exit__ *)
  | EvCall (c : call)
  | EvLog (l : level) (m : msg)
  | EvWrite (file content : string).
Arguments EvOpen {msg}.
Arguments EvClose {msg}.
Arguments EvCall {msg} c.
Arguments EvLog {msg} l m.
Arguments EvWrite {msg} file content.

Definition is_open {msg} (e : event msg) : bool :=
  match e with EvOpen => true | _ => false end.

Definition is_call {msg} (e : event msg) : bool :=
  match e with EvCall _ => true | _ => false end.

Definition is_error_log {msg} (e : event msg) : bool :=
  match e with EvLog LError _ => true | _ => false end.

(** A trace opens a toolkit session when [EvOpen] occurs in it. *)
Definition opens_session {msg} (tr : list (event msg)) : bool := existsb is_open tr.

(** The toolkit calls of a trace, in order. *)
Definition calls {msg} (tr : list (event msg)) : list call :=
  flat_map (fun e => match e with EvCall c => [c] | _ => [] end) tr.

(** The session is opened before any toolkit call is made. *)
Definition session_opened_first {msg} (tr : list (event msg)) : Prop :=
  exists pre rest, tr = pre ++ EvOpen :: rest /\ calls pre = [].

(** The trace starts with [pre]. *)
Definition begun {msg} (pre : list (event msg)) (tr : list (event msg)) : Prop :=
  exists rest, tr = pre ++ rest.

(** An event that neither opens a session nor calls the toolkit. *)
Definition quiet {msg} (e : event msg) : Prop :=
  is_open e = false /\ is_call e = false.

(** Every script state carries the trace of the run so far. *)
Class Traced (S msg : Type) := trace_of : S -> list (event msg).

(** [m] keeps a property of the trace, whatever it returns or raises. *)
Definition preserves {S msg A} `{Traced S msg}
    (I : list (event msg) -> Prop) (m : M S A) : Prop :=
  forall s, I (trace_of s) -> I (trace_of (snd (m s))).

(** ** Stage 2: [2_seq_alignment.py] *)

Module SeqAlignment.

(** One atom of a toolkit model, with the three fields the script reads. *)
Record atom := { chain : string; resi : string; resn : string }.

(** The outside world of one run.  A selection expression is evaluated by
    the toolkit on the aligned coordinates of the session: [select_error]
    says whether [cmd.select] raises on it, [model_of] is what
    [cmd.get_model] returns for a name bound to it. *)
Record env := {
  load_error : string -> string -> option exn;
  object_list : list string;
  select_error : string -> option exn;
  model_of : string -> outcome (list atom);
  open_error : string -> option exn
}.

Inductive msg :=
  | MStart
  | MLoadSession (file : string)
  | MLoadFailed (e : exn)
  | MNoTargets
  | MProcessing (target : string)
  | MExtractFailed (target : string)
  | MWritten (file : string)
  | MWriteFailed (file : string) (e : exn)
  | MEnd
  | MCreateSel (target ref_sel target_sel : string)
  | MSelectFailed (e : exn)
  | MModelFailed (e : exn)
  | MNoAtoms
  | MEmptyRegion (target : string)
  | MMismatch (target : string) (n_ref n_target : nat)
  | MCount (target : string) (n_aligned : nat).

(** [logging.basicConfig(filename='seq_alignment.log', ...)]: the file of the
    working directory to which the logging module appends one record for
    every message logged.  The script never opens it itself. *)
Definition log_file : string := "seq_alignment.log".

(** [sels]: the named selections of the toolkit session, each bound to the
    expression it was made from; [files]: the files of the working directory
    other than [log_file].  What a run appends to [log_file] is the [EvLog]
    events of its trace, in order; nothing is said about [log_file] through
    [files]. *)
Record state := {
  trace : list (event msg);
  sels : gmap string string;
  files : gmap string string
}.

Definition emit (e : event msg) : M state unit :=
  fun s => (Ok tt, {| trace := trace s ++ [e]; sels := sels s; files := files s |}).

Definition logging (l : level) (m : msg) : M state unit := emit (EvLog l m).

Definition cmd_load (w : env) (file object : string) : M state unit :=
  (emit (EvCall (CLoad file object)) ;;
   match load_error w file object with
   | Some e => raise e
   | None => ret tt
   end)%prog.

Definition cmd_get_object_list (w : env) : M state (list string) :=
  (emit (EvCall CGetObjectList) ;; ret (object_list w))%prog.

Definition cmd_select (w : env) (name expr : string) : M state unit :=
  (emit (EvCall (CSelect name expr)) ;;
   match select_error w expr with
   | Some e => raise e
   | None =>
       fun s => (Ok tt, {| trace := trace s; sels := <[name := expr]> (sels s);
                           files := files s |})
   end)%prog.

Definition cmd_get_model (w : env) (name : string) : M state (list atom) :=
  (emit (EvCall (CGetModel name)) ;;
   fun s =>
     match sels s !! name with
     | Some expr => (model_of w expr, s)
     | None => (Raise (ToolkitError name), s)
     end)%prog.

(** [with open(file, "w") as outfile: outfile.write(content)], on a system
    whose line separator is LF; a failure is one of [open]. *)
Definition write_file (w : env) (file content : string) : M state unit :=
  match open_error w file with
  | Some e => raise e
  | None =>
      fun s => (Ok tt, {| trace := trace s ++ [EvWrite file content]; sels := sels s;
                          files := <[file := content]> (files s) |})
  end.

Definition THREE_TO_ONE : list (string * string) :=
  [("ALA", "A"); ("ARG", "R"); ("ASN", "N"); ("ASP", "D"); ("CYS", "C");
   ("GLU", "E"); ("GLN", "Q"); ("GLY", "G"); ("HIS", "H"); ("ILE", "I");
   ("LEU", "L"); ("LYS", "K"); ("MET", "M"); ("PHE", "F"); ("PRO", "P");
   ("SER", "S"); ("THR", "T"); ("TRP", "W"); ("TYR", "Y"); ("VAL", "V")].

(** [f"{distance_threshold}"] for [distance_threshold = 2.0] *)
Definition distance_threshold : string := "2.0".

Definition ref_sel (target : string) : string :=
  "ref and name CA within " +:+ distance_threshold +:+ " of " +:+ target.

Definition target_sel (target : string) : string :=
  target +:+ " and name CA within " +:+ distance_threshold +:+ " of ref".

(** The second component of the sort key: [int(atom.resi)], or [atom.resi]
    itself when [int] raises [ValueError]. *)
Inductive resi_key :=
  | KInt (z : Z)
  | KStr (s : string).

Definition sort_key (a : atom) : string * resi_key :=
  match Py.int (resi a) with
  | Some z => (chain a, KInt z)
  | None => (chain a, KStr (resi a))
  end.

(** [k1 < k2] on the key tuples: the first components decide unless they are
    equal; [int < str] and [str < int] raise [TypeError]. *)
Definition key_lt (k1 k2 : string * resi_key) : outcome bool :=
  if String.eqb (fst k1) (fst k2) then
    match snd k1, snd k2 with
    | KInt a, KInt b => Ok (a <? b)%Z
    | KStr a, KStr b => Ok (Py.str_lt a b)
    | _, _ => Raise TypeError
    end
  else Ok (Py.str_lt (fst k1) (fst k2)).

Definition sort_atoms (l : list atom) : outcome (list atom) :=
  Py.sorted key_lt sort_key l.

(** [THREE_TO_ONE.get(atom.resn.upper(), "X")] *)
Definition letter (a : atom) : string := Py.get THREE_TO_ONE (Py.upper (resn a)) "X".

(** The pairing loop [for i in range(n_aligned)], started from the two
    accumulators. *)
Fixpoint pair_loop (range : list nat) (ref_atoms target_atoms : list atom)
    (ref_seq_aligned target_seq_aligned : string) : outcome (string * string) :=
  match range with
  | [] => Ok (ref_seq_aligned, target_seq_aligned)
  | i :: range' =>
      match ref_atoms !! i, target_atoms !! i with
      | Some r, Some t =>
          pair_loop range' ref_atoms target_atoms
            (ref_seq_aligned +:+ letter r) (target_seq_aligned +:+ letter t)
      | _, _ => Raise IndexError
      end
  end.

Definition is_empty {A} (l : list A) : bool :=
  match l with [] => true | _ => false end.

(** [None] stands for the pair [(None, None)]. *)
Definition extract_aligned_sequence (w : env) (target : string)
    : M state (option (string * string)) :=
  (logging LInfo (MCreateSel target (ref_sel target) (target_sel target)) ;;
   do selected <-
     try_except
       (cmd_select w "ref_aligned" (ref_sel target) ;;
        cmd_select w "target_aligned" (target_sel target) ;;
        ret true)
       (fun e => logging LError (MSelectFailed e) ;; ret false) ;
   if negb selected then ret None else
   do models <-
     try_except
       (do ref_model <- cmd_get_model w "ref_aligned" ;
        do target_model <- cmd_get_model w "target_aligned" ;
        ret (Some (ref_model, target_model)))
       (fun e => logging LError (MModelFailed e) ;; ret None) ;
   match models with
   | None => ret None
   | Some (ref_model, target_model) =>
       if is_empty ref_model || is_empty target_model
       then logging LError MNoAtoms ;; ret None
       else
         do ref_atoms <- lift (sort_atoms ref_model) ;
         do target_atoms <- lift (sort_atoms target_model) ;
         let n_aligned := Nat.min (length ref_atoms) (length target_atoms) in
         if n_aligned =? 0
         then logging LError (MEmptyRegion target) ;; ret None
         else
           (if negb (length ref_atoms =? length target_atoms)
            then logging LWarning
                   (MMismatch target (length ref_atoms) (length target_atoms))
            else ret tt) ;;
           do seqs <- lift (pair_loop (seq 0 n_aligned) ref_atoms target_atoms "" "") ;
           logging LInfo (MCount target n_aligned) ;;
           ret (Some seqs)
   end)%prog.

Definition session_file : string := "alignment.pse".

Definition fasta_output (target ref_aln tgt_aln : string) : string :=
  ">ref_aligned" +:+ Py.nl +:+ ref_aln +:+ Py.nl +:+
  ">" +:+ target +:+ "_aligned" +:+ Py.nl +:+ tgt_aln +:+ Py.nl.

Definition output_filename (target : string) : string := target +:+ "_seq_align.fasta".

(** The body of [for target in target_objects]. *)
Definition process_target (w : env) (target : string) : M state unit :=
  (logging LInfo (MProcessing target) ;;
   do r <- extract_aligned_sequence w target ;
   match r with
   | None => logging LError (MExtractFailed target)
   | Some (ref_aln, tgt_aln) =>
       try_except
         (write_file w (output_filename target) (fasta_output target ref_aln tgt_aln) ;;
          logging LInfo (MWritten (output_filename target)))
         (fun e => logging LError (MWriteFailed (output_filename target) e))
   end)%prog.

(** [obj not in ("ref", "session")] *)
Definition is_target (obj : string) : bool :=
  negb (String.eqb obj "ref" || String.eqb obj "session").

(** The [with] block of [main]; [false] is a [return] from inside it. *)
Definition main_body (w : env) : M state bool :=
  (logging LInfo (MLoadSession session_file) ;;
   do loaded <-
     try_except (cmd_load w session_file "session" ;; ret true)
                (fun e => logging LError (MLoadFailed e) ;; ret false) ;
   if negb loaded then ret false else
   do objects <- cmd_get_object_list w ;
   let target_objects := List.filter is_target objects in
   if is_empty target_objects
   then logging LError MNoTargets ;; ret false
   else for_each (process_target w) target_objects ;; ret true)%prog.

Definition main (w : env) : M state unit :=
  (logging LInfo MStart ;;
   do completed <- with_block (emit EvOpen) (emit EvClose) (main_body w) ;
   if completed then logging LInfo MEnd else ret tt)%prog.

Definition initial (fs : gmap string string) : state :=
  {| trace := []; sels := ∅; files := fs |}.

#[global] Instance state_traced : Traced state msg := trace.

(** *** Notions used to state properties of stage 2 *)

(** What [extract_aligned_sequence] returns or raises for a target. *)
Definition extraction (w : env) (target : string) : outcome (option (string * string)) :=
  fst (extract_aligned_sequence w target (initial ∅)).

(** The one-letter codes of a list of atoms, joined. *)
Definition letters (l : list atom) : string := Py.join (List.map letter l).

(** The named selections after [extract_aligned_sequence]. *)
Definition extract_sels (w : env) (target : string) (m : gmap string string)
    : gmap string string :=
  match select_error w (ref_sel target) with
  | Some _ => m
  | None =>
      match select_error w (target_sel target) with
      | Some _ => <["ref_aligned" := ref_sel target]> m
      | None =>
          <["target_aligned" := target_sel target]> (<["ref_aligned" := ref_sel target]> m)
      end
  end.

(** The run of [extract_aligned_sequence] laid out case by case: what it
    returns and the events it adds.  [extract_run] below proves that the
    function does exactly this. *)
Definition extract_summary (w : env) (target : string)
    : outcome (option (string * string)) * list (event msg) :=
  let e0 := [EvLog LInfo (MCreateSel target (ref_sel target) (target_sel target));
             EvCall (CSelect "ref_aligned" (ref_sel target))] in
  match select_error w (ref_sel target) with
  | Some e => (Ok None, e0 ++ [EvLog LError (MSelectFailed e)])
  | None =>
  let e1 := e0 ++ [EvCall (CSelect "target_aligned" (target_sel target))] in
  match select_error w (target_sel target) with
  | Some e => (Ok None, e1 ++ [EvLog LError (MSelectFailed e)])
  | None =>
  let e2 := e1 ++ [EvCall (CGetModel "ref_aligned")] in
  match model_of w (ref_sel target) with
  | Raise e => (Ok None, e2 ++ [EvLog LError (MModelFailed e)])
  | Ok ref_model =>
  let e3 := e2 ++ [EvCall (CGetModel "target_aligned")] in
  match model_of w (target_sel target) with
  | Raise e => (Ok None, e3 ++ [EvLog LError (MModelFailed e)])
  | Ok target_model =>
  if is_empty ref_model || is_empty target_model
  then (Ok None, e3 ++ [EvLog LError MNoAtoms])
  else
  match sort_atoms ref_model with
  | Raise e => (Raise e, e3)
  | Ok ref_atoms =>
  match sort_atoms target_model with
  | Raise e => (Raise e, e3)
  | Ok target_atoms =>
  let n := Nat.min (length ref_atoms) (length target_atoms) in
  let e4 := if length ref_atoms =? length target_atoms then e3
            else e3 ++ [EvLog LWarning
                          (MMismatch target (length ref_atoms) (length target_atoms))] in
  (Ok (Some (letters (take n ref_atoms), letters (take n target_atoms))),
   e4 ++ [EvLog LInfo (MCount target n)])
  end end end end end end.

(** The same for one turn of the loop of [main]: the outcome, the events,
    and the file written, if any. *)
Definition process_summary (w : env) (target : string)
    : outcome unit * list (event msg) * option (string * string) :=
  let e0 := EvLog LInfo (MProcessing target) :: snd (extract_summary w target) in
  match fst (extract_summary w target) with
  | Raise e => (Raise e, e0, None)
  | Ok None => (Ok tt, e0 ++ [EvLog LError (MExtractFailed target)], None)
  | Ok (Some (ref_aln, tgt_aln)) =>
      match open_error w (output_filename target) with
      | Some e =>
          (Ok tt, e0 ++ [EvLog LError (MWriteFailed (output_filename target) e)], None)
      | None =>
          (Ok tt,
           e0 ++ [EvWrite (output_filename target) (fasta_output target ref_aln tgt_aln);
                  EvLog LInfo (MWritten (output_filename target))],
           Some (output_filename target, fasta_output target ref_aln tgt_aln))
      end
  end.

Definition put (wr : option (string * string)) (fs : gmap string string)
    : gmap string string :=
  match wr with
  | Some (file, content) => <[file := content]> fs
  | None => fs
  end.

Definition push (evs : list (event msg)) (s : state) : state :=
  {| trace := trace s ++ evs; sels := sels s; files := files s |}.

Definition target_objects (w : env) : list string := List.filter is_target (object_list w).

(** What [main] does before it asks for the objects of the session. *)
Definition main_prelude : list (event msg) :=
  [EvLog LInfo MStart; EvOpen; EvLog LInfo (MLoadSession session_file);
   EvCall (CLoad session_file "session")].

(** An event [main] emits itself, outside the turns of the loop. *)
Definition fixed_event (e : event msg) : Prop :=
  match e with
  | EvOpen | EvClose | EvCall (CLoad _ _) | EvCall CGetObjectList => True
  | EvLog LInfo MStart | EvLog LInfo (MLoadSession _) | EvLog LInfo MEnd => True
  | EvLog LError (MLoadFailed _) | EvLog LError MNoTargets => True
  | _ => False
  end.

(** The toolkit answered both selections of a target, with these atoms. *)
Definition selected (w : env) (target : string) (ref_model target_model : list atom) : Prop :=
  select_error w (ref_sel target) = None /\
  select_error w (target_sel target) = None /\
  model_of w (ref_sel target) = Ok ref_model /\
  model_of w (target_sel target) = Ok target_model.

(** Stage 2 as the specification words it: threshold filtering, a sort, and
    a table lookup per residue, and nothing else. *)
Definition spec_aligned_pair (w : env) (target : string)
    : outcome (option (string * string)) :=
  match model_of w (ref_sel target), model_of w (target_sel target) with
  | Ok ref_model, Ok target_model =>
      match sort_atoms ref_model, sort_atoms target_model with
      | Ok ref_atoms, Ok target_atoms => Ok (Some (letters ref_atoms, letters target_atoms))
      | Raise e, _ => Raise e
      | _, Raise e => Raise e
      end
  | _, _ => Ok None
  end.

(** The residue identifier parses as an integer. *)
Definition numeric (a : atom) : bool :=
  match Py.int (resi a) with Some _ => true | None => false end.

(** Two atoms of one chain, one with a numeric residue identifier and one
    without. *)
Definition clash (a b : atom) : Prop := chain a = chain b /\ numeric a <> numeric b.

(** [a] may stand before [b] in a list sorted by chain. *)
Definition chain_le (a b : atom) : Prop := String.le (chain a) (chain b).

(** [b] is not smaller than [a] by their sort keys. *)
Definition atom_le (a b : atom) : Prop := key_lt (sort_key b) (sort_key a) = Ok false.

(** The list built so far by the sort: ordered by chain, and free of clashes. *)
Definition tidy (r : list atom) : Prop :=
  StronglySorted chain_le r /\ (forall a b, In a r -> In b r -> ~ clash a b).

End SeqAlignment.

(** ** Stage 1: [1_ce_align.py] *)

Module CeAlign.

(** What [cmd.cealign] returned.  Toolkit values are opaque to the script and
    stand here as the text an f-string prints for them: a [dict] with its
    items, or any other object with the outcome of [float(result)]. *)
Inductive ce_result :=
  | CeDict (items : list (string * string))
  | CeOther (as_float : option string).

Inductive rmsd_value :=
  | RmsdOf (text : string)
  | RmsdNone
  | RmsdNA.

Record env := {
  cwd : string;
  path_exists : string -> bool;
  glob : string -> list string;
  load_error : string -> string -> option exn;
  cealign : string -> string -> outcome ce_result;
  save_error : string -> option exn
}.

Inductive msg :=
  | MStart
  | MRefMissing (ref_filepath : string)
  | MNoPdbFiles (pdb_folder ref_filename : string)
  | MLoadRef (ref_filepath : string)
  | MLoadTarget (pdb_path : string)
  | MCealign (base_name : string)
  | MCealignFailed (base_name : string) (e : exn)
  | MResult (base_name : string) (rmsd : rmsd_value)
  | MSaveSession (session_file : string)
  | MEnd.

Definition state : Type := list (event msg).

#[global] Instance state_traced : Traced state msg := fun tr => tr.

Definition emit (e : event msg) : M state unit := fun tr => (Ok tt, tr ++ [e]).

Definition logging (l : level) (m : msg) : M state unit := emit (EvLog l m).

Definition cmd_load (w : env) (file object : string) : M state unit :=
  (emit (EvCall (CLoad file object)) ;;
   match load_error w file object with
   | Some e => raise e
   | None => ret tt
   end)%prog.

Definition cmd_cealign (w : env) (master target : string) : M state ce_result :=
  (emit (EvCall (CCealign master target)) ;; lift (cealign w master target))%prog.

Definition cmd_save (w : env) (file : string) : M state unit :=
  (emit (EvCall (CSave file)) ;;
   match save_error w file with
   | Some e => raise e
   | None => ret tt
   end)%prog.

Definition ref_filename : string := "ref.pdb".
Definition session_file : string := "alignment.pse".

(** [result.get("RMS", result.get("RMSD", None))], or [float(result)] with
    "N/A" when it raises. *)
Definition rmsd_of (result : ce_result) : rmsd_value :=
  match result with
  | CeDict items =>
      Py.get (List.map (fun kv => (fst kv, RmsdOf (snd kv))) items) "RMS"
        (Py.get (List.map (fun kv => (fst kv, RmsdOf (snd kv))) items) "RMSD" RmsdNone)
  | CeOther (Some x) => RmsdOf x
  | CeOther None => RmsdNA
  end.

Definition base_name_of (pdb_path : string) : string :=
  Py.splitext_root (Py.basename pdb_path).

(** The body of [for pdb_path in pdb_files]. *)
Definition align_one (w : env) (pdb_path : string) : M state unit :=
  (let base_name := base_name_of pdb_path in
   logging LInfo (MLoadTarget pdb_path) ;;
   cmd_load w pdb_path base_name ;;
   logging LInfo (MCealign base_name) ;;
   do result <-
     try_except (do r <- cmd_cealign w "ref" base_name ; ret (Some r))
                (fun e => logging LError (MCealignFailed base_name e) ;; ret None) ;
   match result with
   | None => ret tt
   | Some r => logging LInfo (MResult base_name (rmsd_of r))
   end)%prog.

Definition pdb_folder (w : env) : string := Py.path_join (cwd w) "pdbs".
Definition ref_filepath (w : env) : string := Py.path_join (pdb_folder w) ref_filename.

Definition not_ref (f : string) : bool := negb (String.eqb (Py.basename f) ref_filename).

Definition pdb_files (w : env) : list string :=
  List.filter not_ref (glob w (Py.path_join (pdb_folder w) "*.pdb")).

Definition is_empty {A} (l : list A) : bool :=
  match l with [] => true | _ => false end.

(** The [with] block of [main]. *)
Definition main_body (w : env) : M state unit :=
  (logging LInfo (MLoadRef (ref_filepath w)) ;;
   cmd_load w (ref_filepath w) "ref" ;;
   for_each (align_one w) (pdb_files w) ;;
   logging LInfo (MSaveSession session_file) ;;
   cmd_save w session_file)%prog.

Definition main (w : env) : M state unit :=
  (logging LInfo MStart ;;
   if negb (path_exists w (ref_filepath w))
   then logging LError (MRefMissing (ref_filepath w))
   else if is_empty (pdb_files w)
   then logging LError (MNoPdbFiles (pdb_folder w) ref_filename)
   else
     with_block (emit EvOpen) (emit EvClose) (main_body w) ;;
     logging LInfo MEnd)%prog.

(** *** Notions used to state properties of stage 1 *)

(** One turn of the loop laid out: its outcome and the events it adds;
    [align_one_run] below proves that [align_one] does exactly this. *)
Definition align_summary (w : env) (pdb_path : string) : outcome unit * list (event msg) :=
  let base_name := base_name_of pdb_path in
  let e0 := [EvLog LInfo (MLoadTarget pdb_path); EvCall (CLoad pdb_path base_name)] in
  match load_error w pdb_path base_name with
  | Some e => (Raise e, e0)
  | None =>
      let e1 := e0 ++ [EvLog LInfo (MCealign base_name);
                       EvCall (CCealign "ref" base_name)] in
      match cealign w "ref" base_name with
      | Raise e => (Ok tt, e1 ++ [EvLog LError (MCealignFailed base_name e)])
      | Ok r => (Ok tt, e1 ++ [EvLog LInfo (MResult base_name (rmsd_of r))])
      end
  end.

(** The two toolkit calls made for one structure file. *)
Definition align_calls (pdb_path : string) : list call :=
  [CLoad pdb_path (base_name_of pdb_path); CCealign "ref" (base_name_of pdb_path)].

End CeAlign.

(** ** Stage 3: [3_msa_generator.py] *)

Module MsaGenerator.

(** A [dict] with [str] keys and values: its items in insertion order, every
    key once. *)
Definition dict : Type := list (string * string).

(** [d[k] = v]: an existing key keeps its place. *)
Fixpoint setitem (d : dict) (k v : string) : dict :=
  match d with
  | [] => [(k, v)]
  | (k', v') :: d' =>
      if String.eqb k k' then (k', v) :: d' else (k', v') :: setitem d' k v
  end.

(** [d.get(k)] *)
Fixpoint lookup (d : dict) (k : string) : option string :=
  match d with
  | [] => None
  | (k', v) :: d' => if String.eqb k k' then Some v else lookup d' k
  end.

(** The working directory: [glob] is what [glob.glob] returns for a pattern,
    [read_error] whether opening or decoding a file raises, [open_error]
    whether opening it for writing does. *)
Record env := {
  glob : string -> list string;
  read_error : string -> option exn;
  open_error : string -> option exn
}.

Inductive msg :=
  | MStart
  | MNoFiles
  | MProcessing (fasta_file : string)
  | MParseFailed (fasta_file : string) (e : exn)
  | MNoRef (fasta_file : string)
  | MBadShape (fasta_file : string) (target_keys : list string)
  | MNoValidRef
  | MInconsistent
  | MConsistent
  | MWritten (output_filename : string)
  | MWriteFailed (output_filename : string) (e : exn)
  | MEnd.

(** [logging.basicConfig(filename='msa_generator.log', ...)]: the file of the
    working directory to which the logging module appends one record for
    every message logged.  The script never opens it itself, and its name
    does not match the pattern of the input files. *)
Definition log_file : string := "msa_generator.log".

(** [ref_sequences] and [targets] are the two collections [main] fills;
    [files]: the files of the working directory other than [log_file].  What
    a run appends to [log_file] is the [EvLog] events of its trace, in order;
    nothing is said about [log_file] through [files]. *)
Record state := {
  trace : list (event msg);
  files : gmap string string;
  ref_sequences : list string;
  targets : dict
}.

Definition emit (e : event msg) : M state unit :=
  fun s => (Ok tt, {| trace := trace s ++ [e]; files := files s;
                      ref_sequences := ref_sequences s; targets := targets s |}).

Definition logging (l : level) (m : msg) : M state unit := emit (EvLog l m).

(** [with open(filename, 'r') as f: f.read()] *)
Definition read_text (w : env) (filename : string) : M state string :=
  fun s =>
    match read_error w filename with
    | Some e => (Raise e, s)
    | None =>
        match files s !! filename with
        | Some content => (Ok (Py.universal_newlines content), s)
        | None => (Raise (OSError filename), s)
        end
    end.

Definition flush (sequences : dict) (header : option string) (seq_lines : list string) : dict :=
  match header with
  | Some h => setitem sequences h (Py.join seq_lines)
  | None => sequences
  end.

(** One turn of [for line in lines] on [(sequences, header, seq_lines)]. *)
Definition parse_line (acc : dict * option string * list string) (line : string)
    : dict * option string * list string :=
  let '(sequences, header, seq_lines) := acc in
  if Py.startswith_gt line
  then (flush sequences header seq_lines, Some (Py.strip (Py.tail line)), [])
  else (sequences, header, seq_lines ++ [Py.strip line]).

Definition parse_lines (lines : list string) : dict :=
  let '(sequences, header, seq_lines) := fold_left parse_line lines ([], None, []) in
  flush sequences header seq_lines.

Definition parse_text (content : string) : dict :=
  parse_lines (Py.splitlines (Py.universal_newlines content)).

Definition parse_fasta (w : env) (filename : string) : M state dict :=
  (do text <- read_text w filename ;
   ret (parse_lines (Py.splitlines text)))%prog.

Definition is_empty {A} (l : list A) : bool :=
  match l with [] => true | _ => false end.

Definition is_target_key (item : string * string) : bool :=
  negb (String.eqb (fst item) "ref_aligned").

Definition record_pair (ref_seq target_name target_seq : string) : M state unit :=
  fun s => (Ok tt, {| trace := trace s; files := files s;
                      ref_sequences := ref_sequences s ++ [ref_seq];
                      targets := setitem (targets s) target_name target_seq |}).

(** The body of [for fasta_file in fasta_files]. *)
Definition process_file (w : env) (fasta_file : string) : M state unit :=
  (logging LInfo (MProcessing fasta_file) ;;
   do parsed <-
     try_except (do d <- parse_fasta w fasta_file ; ret (Some d))
                (fun e => logging LError (MParseFailed fasta_file e) ;; ret None) ;
   match parsed with
   | None => ret tt
   | Some seq_dict =>
       match lookup seq_dict "ref_aligned" with
       | None => logging LError (MNoRef fasta_file)
       | Some ref_seq =>
           match List.filter is_target_key seq_dict with
           | [(target_key, target_seq)] =>
               record_pair ref_seq (Py.replace "_aligned" "" target_key) target_seq
           | others => logging LError (MBadShape fasta_file (List.map fst others))
           end
       end
   end)%prog.

(** [msa = {}; msa["ref"] = first_ref; for name, seq in targets.items(): msa[name] = seq] *)
Definition build_msa (first_ref : string) (targets : dict) : dict :=
  fold_left (fun msa item => setitem msa (fst item) (snd item)) targets
            (setitem [] "ref" first_ref).

(** The text the [for seq_name, sequence in msa.items()] loop writes. *)
Definition render_msa (msa : dict) : string :=
  Py.join (List.map (fun item => ">" +:+ fst item +:+ Py.nl +:+ snd item +:+ Py.nl) msa).

Definition write_file (w : env) (file content : string) : M state unit :=
  match open_error w file with
  | Some e => raise e
  | None =>
      fun s => (Ok tt, {| trace := trace s ++ [EvWrite file content];
                          files := <[file := content]> (files s);
                          ref_sequences := ref_sequences s; targets := targets s |})
  end.

Definition output_filename : string := "aligned.msa.fasta".

Definition get_state : M state state := fun s => (Ok s, s).

Definition main (w : env) : M state unit :=
  (logging LInfo MStart ;;
   let fasta_files := glob w "*_seq_align.fasta" in
   if is_empty fasta_files then logging LError MNoFiles else
   for_each (process_file w) fasta_files ;;
   do s <- get_state ;
   match ref_sequences s with
   | [] => logging LError MNoValidRef
   | first_ref :: _ =>
       let consistent := forallb (fun seq => String.eqb seq first_ref) (ref_sequences s) in
       (if negb consistent then logging LWarning MInconsistent
        else logging LInfo MConsistent) ;;
       let msa := build_msa first_ref (targets s) in
       try_except
         (write_file w output_filename (render_msa msa) ;;
          logging LInfo (MWritten output_filename))
         (fun e => logging LError (MWriteFailed output_filename e)) ;;
       logging LInfo MEnd
   end)%prog.

Definition initial (fs : gmap string string) : state :=
  {| trace := []; files := fs; ref_sequences := []; targets := [] |}.

#[global] Instance state_traced : Traced state msg := trace.

(** *** Notions used to state properties of stage 3 *)

(** What [parse_fasta] returns or raises for a file of the directory [fs]. *)
Definition parsed (w : env) (fs : gmap string string) (filename : string) : outcome dict :=
  match read_error w filename with
  | Some e => Raise e
  | None =>
      match fs !! filename with
      | Some content => Ok (parse_text content)
      | None => Raise (OSError filename)
      end
  end.

(** One turn of the loop laid out: the events it adds and the reference
    sequence, target name and target sequence it records, if any;
    [process_file_run] below proves that [process_file] does exactly this. *)
Definition file_summary (w : env) (fs : gmap string string) (fasta_file : string)
    : list (event msg) * option (string * string * string) :=
  let e0 := [EvLog LInfo (MProcessing fasta_file)] in
  match parsed w fs fasta_file with
  | Raise e => (e0 ++ [EvLog LError (MParseFailed fasta_file e)], None)
  | Ok seq_dict =>
      match lookup seq_dict "ref_aligned" with
      | None => (e0 ++ [EvLog LError (MNoRef fasta_file)], None)
      | Some ref_seq =>
          match List.filter is_target_key seq_dict with
          | [(target_key, target_seq)] =>
              (e0, Some (ref_seq, Py.replace "_aligned" "" target_key, target_seq))
          | others => (e0 ++ [EvLog LError (MBadShape fasta_file (List.map fst others))], None)
          end
      end
  end.

(** What the loop of [main] records, file by file. *)
Definition collect (w : env) (fs : gmap string string) (fasta_files : list string)
    : list (string * string * string) :=
  flat_map (fun f => match snd (file_summary w fs f) with
                     | Some rec => [rec]
                     | None => []
                     end) fasta_files.

Definition collected_refs (recs : list (string * string * string)) : list string :=
  List.map (fun rec => fst (fst rec)) recs.

Definition collected_targets (recs : list (string * string * string)) (d : dict) : dict :=
  fold_left (fun d rec => setitem d (snd (fst rec)) (snd rec)) recs d.

Definition all_equal (first_ref : string) (refs : list string) : bool :=
  forallb (fun seq => String.eqb seq first_ref) refs.

Definition fasta_files (w : env) : list string := glob w "*_seq_align.fasta".

(** The state after the loop of [main] over the files [l], started in [s]. *)
Definition loop_state (w : env) (l : list string) (s : state) : state :=
  {| trace := trace s ++ flat_map (fun f => fst (file_summary w (files s) f)) l;
     files := files s;
     ref_sequences := ref_sequences s ++ collected_refs (collect w (files s) l);
     targets := collected_targets (collect w (files s) l) (targets s) |}.

Definition push (evs : list (event msg)) (s : state) : state :=
  {| trace := trace s ++ evs; files := files s;
     ref_sequences := ref_sequences s; targets := targets s |}.

(** The events of [main] once the loop has recorded [first_ref] first. *)
Definition closing_events (w : env) (first_ref : string) (refs : list string) (tgts : dict)
    : list (event msg) :=
  (if all_equal first_ref refs then EvLog LInfo MConsistent
   else EvLog LWarning MInconsistent)
  :: match open_error w output_filename with
     | None => [EvWrite output_filename (render_msa (build_msa first_ref tgts));
                EvLog LInfo (MWritten output_filename); EvLog LInfo MEnd]
     | Some e => [EvLog LError (MWriteFailed output_filename e); EvLog LInfo MEnd]
     end.

(** A string without line boundary. *)
Fixpoint single_line (s : string) : bool :=
  match s with
  | EmptyString => true
  | String c r => negb (Py.is_linebreak c) && single_line r
  end.

(** A string without carriage return. *)
Fixpoint no_cr (s : string) : bool :=
  match s with
  | EmptyString => true
  | String c r => negb (Py.is_cr c) && no_cr r
  end.

Definition set_item (d : dict) (item : string * string) : dict :=
  setitem d (fst item) (snd item).

(** The dict [parse_fasta] would return if the lines ended here. *)
Definition flushed (acc : dict * option string * list string) : dict :=
  flush (fst (fst acc)) (snd (fst acc)) (snd acc).

(** A FASTA record as lines: the header line and the lines of its body. *)
Definition record_lines (rec : string * list string) : list string :=
  (">" +:+ fst rec) :: snd rec.

(** What [parse_fasta] makes of a record: the stripped header, and the
    stripped body lines joined. *)
Definition record_item (rec : string * list string) : string * string :=
  (Py.strip (fst rec), Py.join (List.map Py.strip (snd rec))).

(** The conditions the specification puts on the headers and on the
    sequences of an MSA dictionary for the round trip. *)
Definition header_ok (h : string) : Prop :=
  h <> "" /\ Py.strip h = h /\ Py.startswith_gt h = false.

Definition sequence_ok (q : string) : Prop :=
  single_line q = true /\ Py.startswith_gt q = false.

End MsaGenerator.

(** ** Concrete runs *)

Module Examples.
Import SeqAlignment.

Definition CA (c r n : string) : atom := {| chain := c; resi := r; resn := n |}.

(** A session with the objects [ref], [session] and [t1]; three CA atoms of
    [ref] lie within the threshold of [t1], two of [t1] within that of [ref]. *)
Definition w_pair : env := {|
  load_error := fun _ _ => None;
  object_list := ["ref"; "session"; "t1"];
  select_error := fun _ => None;
  model_of := fun expr =>
    if String.eqb expr (ref_sel "t1")
    then Ok [CA "A" "10" "ala"; CA "A" "9" "GLY"; CA "A" "11" "MSE"]
    else if String.eqb expr (target_sel "t1")
    then Ok [CA "B" "2" "TRP"; CA "A" "5" "VAL"]
    else Ok [CA "A" "1" "ALA"];
  open_error := fun _ => None
|}.

(** A session with the targets [t1] and [t2]; the selection of [ref] near
    [t1] holds residue 100 and residue 100A (an insertion code) of chain A. *)
Definition w_clash : env := {|
  load_error := fun _ _ => None;
  object_list := ["ref"; "t1"; "t2"];
  select_error := fun _ => None;
  model_of := fun expr =>
    if String.eqb expr (ref_sel "t1")
    then Ok [CA "A" "100" "ALA"; CA "A" "100A" "GLY"]
    else Ok [CA "A" "1" "ALA"];
  open_error := fun _ => None
|}.

(** A session with the target [t1]: the selection of [ref] near [t1] holds
    residue 100 and residue 100A of chain A, and no CA atom of [t1] lies
    within the threshold of [ref]. *)
Definition w_skipped : env := {|
  load_error := fun _ _ => None;
  object_list := ["ref"; "t1"];
  select_error := fun _ => None;
  model_of := fun expr =>
    if String.eqb expr (ref_sel "t1")
    then Ok [CA "A" "100" "ALA"; CA "A" "100A" "GLY"]
    else Ok [];
  open_error := fun _ => None
|}.

(** A session with the target [t1] whose selections hold residues that are
    not in the table: selenomethionine and a water. *)
Definition w_unknown : env := {|
  load_error := fun _ _ => None;
  object_list := ["ref"; "t1"];
  select_error := fun _ => None;
  model_of := fun expr =>
    if String.eqb expr (ref_sel "t1")
    then Ok [CA "A" "2" "ala"; CA "A" "1" "MSE"]
    else Ok [CA "A" "7" "HOH"; CA "A" "8" "Trp"];
  open_error := fun _ => None
|}.

(** A folder with [ref.pdb] and two more structures; aligning [a] fails. *)
Definition w_align : CeAlign.env := {|
  CeAlign.cwd := "/data";
  CeAlign.path_exists := fun p => String.eqb p "/data/pdbs/ref.pdb";
  CeAlign.glob := fun pattern =>
    if String.eqb pattern "/data/pdbs/*.pdb"
    then ["/data/pdbs/b.x.pdb"; "/data/pdbs/ref.pdb"; "/data/pdbs/a.pdb"]
    else [];
  CeAlign.load_error := fun _ _ => None;
  CeAlign.cealign := fun _ target =>
    if String.eqb target "a" then Raise (ToolkitError "cealign")
    else Ok (CeAlign.CeDict [("RMSD", "1.5"); ("alignment_length", "80")]);
  CeAlign.save_error := fun _ => None
|}.

(** The same folder without [ref.pdb]. *)
Definition w_noref : CeAlign.env := {|
  CeAlign.cwd := "/data";
  CeAlign.path_exists := fun _ => false;
  CeAlign.glob := fun pattern =>
    if String.eqb pattern "/data/pdbs/*.pdb"
    then ["/data/pdbs/b.x.pdb"; "/data/pdbs/a.pdb"]
    else [];
  CeAlign.load_error := fun _ _ => None;
  CeAlign.cealign := fun _ _ => Ok (CeAlign.CeOther (Some "1.5"));
  CeAlign.save_error := fun _ => None
|}.

(** A folder that holds [ref.pdb] and nothing else. *)
Definition w_refonly : CeAlign.env := {|
  CeAlign.cwd := "/data";
  CeAlign.path_exists := fun p => String.eqb p "/data/pdbs/ref.pdb";
  CeAlign.glob := fun pattern =>
    if String.eqb pattern "/data/pdbs/*.pdb" then ["/data/pdbs/ref.pdb"] else [];
  CeAlign.load_error := fun _ _ => None;
  CeAlign.cealign := fun _ _ => Ok (CeAlign.CeOther (Some "1.5"));
  CeAlign.save_error := fun _ => None
|}.

(** A working directory with three pairwise files; the reference sequences
    of [a] and [b] differ, and [c] has no target sequence. *)
Definition fs_msa : gmap string string :=
  <["a_seq_align.fasta" := fasta_output "a" "AC" "GG"]>
  (<["b_seq_align.fasta" := fasta_output "b" "AD" "GW"]>
  (<["c_seq_align.fasta" := ">ref_aligned" +:+ Py.nl +:+ "A"]> ∅)).

Definition w_msa : MsaGenerator.env := {|
  MsaGenerator.glob := fun _ =>
    ["a_seq_align.fasta"; "gone_seq_align.fasta"; "c_seq_align.fasta"; "b_seq_align.fasta"];
  MsaGenerator.read_error := fun _ => None;
  MsaGenerator.open_error := fun _ => None
|}.

End Examples.

(** ** Further notions *)

(** Some occurrence of [a] stands before some occurrence of [b] in [r]. *)
Definition occurs_before {A} (a b : A) (r : list A) : Prop :=
  exists l1 l2 l3, r = l1 ++ a :: l2 ++ b :: l3.

(** Every character of [s] is one of [alphabet]. *)
Fixpoint chars_in (alphabet : list ascii) (s : string) : bool :=
  match s with
  | EmptyString => true
  | String c r => existsb (Ascii.eqb c) alphabet && chars_in alphabet r
  end.

(** The one-letter codes of the table, and the unknown marker. *)
Definition residue_alphabet : list ascii :=
  list_ascii_of_string "ARNDCEQGHILKMFPSTWYVX".

Definition is_close {msg} (e : event msg) : bool :=
  match e with EvClose => true | _ => false end.

(** An event that may stand outside a toolkit session: it neither opens nor
    closes one, and is no toolkit call. *)
Definition outside {msg} (e : event msg) : Prop :=
  is_open e = false /\ is_close e = false /\ is_call e = false.

(** An event that may stand inside a toolkit session. *)
Definition inside {msg} (e : event msg) : Prop :=
  is_open e = false /\ is_close e = false.

(** The trace has one toolkit session, opened and closed once, and every
    toolkit call lies within it. *)
Definition bracketed {msg} (tr : list (event msg)) : Prop :=
  exists a b c, tr = a ++ EvOpen :: b ++ EvClose :: c /\
    Forall outside a /\ Forall inside b /\ Forall outside c.

(** [old] occurs nowhere in [t +:+ rest] at a position inside [t]. *)
Fixpoint free_of (old : string) (t rest : string) : bool :=
  match t with
  | EmptyString => true
  | String c r => negb (String.prefix old (t +:+ rest)) && free_of old r rest
  end.

(** * Properties *)

(** ** The built-ins on examples *)

Example splitlines_ex :
  Py.splitlines ("ab" +:+ Py.nl +:+ Py.nl +:+ "c" +:+ String Py.CR Py.nl +:+ " d ") =
  ["ab"; ""; "c"; " d "].
Proof. reflexivity. Qed.

Example int_ex :
  (Py.int " 12 ", Py.int "-7", Py.int "1_0", Py.int "100A", Py.int "1__0", Py.int "")
  = (Some 12%Z, Some (-7)%Z, Some 10%Z, None, None, None).
Proof. reflexivity. Qed.

(** U+001F is white space for [str.strip] and not for [int]; U+00A0 is for
    both. *)
Example int_space_ex :
  Py.strip (String (ascii_of_nat 31) "5") = "5" /\
  Py.int (String (ascii_of_nat 31) "5") = None /\
  Py.int (String (ascii_of_nat 160) "5") = Some 5%Z.
Proof. repeat split; reflexivity. Qed.

(** A literal of 4300 digits is read, one of 4301 is not, zeros included. *)
Example int_limit_ex :
  Py.int (Py.join (repeat "1" 4300)) <> None /\
  Py.int (Py.join (repeat "0" 4301)) = None.
Proof. split; vm_compute; congruence. Qed.

Example strip_upper_ex : Py.strip "  a b  " = "a b" /\ Py.upper "alA" = "ALA".
Proof. split; reflexivity. Qed.

Example path_ex :
  Py.basename "/data/pdbs/b.x.pdb" = "b.x.pdb" /\ Py.splitext_root "b.x.pdb" = "b.x" /\
  Py.splitext_root ".pdb" = ".pdb" /\ Py.path_join "/data" "pdbs" = "/data/pdbs".
Proof. repeat split; reflexivity. Qed.

Example replace_ex :
  Py.replace "_aligned" "" "t1_aligned" = "t1" /\ Py.replace "aa" "b" "aaaaa" = "bba".
Proof. split; reflexivity. Qed.

(** ** The order on strings *)

Lemma str_lt_leb a b : Py.str_lt a b = negb (String.leb b a).
Proof.
  unfold Py.str_lt, String.ltb, String.leb.
  rewrite (String.compare_antisym b a).
  destruct (String.compare a b); reflexivity.
Qed.

Lemma str_lt_irrefl a : Py.str_lt a a = false.
Proof.
  rewrite str_lt_leb. apply negb_false_iff.
  destruct (String.leb_total a a); assumption.
Qed.

Lemma str_lt_false_le a b : Py.str_lt a b = false <-> String.le b a.
Proof.
  rewrite str_lt_leb, negb_false_iff. unfold String.le.
  split; [apply Is_true_true_2 | apply Is_true_true_1].
Qed.

Lemma str_lt_true_le a b : Py.str_lt a b = true -> String.le a b.
Proof.
  rewrite str_lt_leb, negb_true_iff. intros Hba. unfold String.le.
  destruct (String.leb_total a b) as [Hab | Hab]; [by apply Is_true_true_2 | congruence].
Qed.


(** ** The sort of stage 2 *)

Section SortAtoms.
Import SeqAlignment.

Lemma sort_key_chain a : fst (sort_key a) = chain a.
Proof. unfold sort_key. destruct (Py.int (resi a)); reflexivity. Qed.

Lemma key_lt_clash a b : clash a b -> key_lt (sort_key a) (sort_key b) = Raise TypeError.
Proof.
  intros [Hc Hn]. unfold key_lt, sort_key, numeric in *.
  destruct (Py.int (resi a)), (Py.int (resi b)); simpl;
    rewrite Hc, String.eqb_refl; congruence.
Qed.

Lemma key_lt_no_clash a b :
  ~ clash a b -> exists r, key_lt (sort_key a) (sort_key b) = Ok r.
Proof.
  intros Hn. unfold key_lt. rewrite !sort_key_chain.
  destruct (String.eqb_spec (chain a) (chain b)) as [Hc | Hc]; [| eauto].
  unfold clash, sort_key, numeric in *.
  destruct (Py.int (resi a)), (Py.int (resi b)); simpl; eauto; exfalso; apply Hn; split; congruence.
Qed.

Lemma key_lt_raises a b e :
  key_lt (sort_key a) (sort_key b) = Raise e -> e = TypeError /\ clash a b.
Proof.
  intros H. destruct (decide (chain a = chain b /\ numeric a <> numeric b)) as [Hc | Hc].
  - rewrite (key_lt_clash _ _ Hc) in H. by inversion H.
  - destruct (key_lt_no_clash _ _ Hc) as [r Hr]. congruence.
Qed.


Lemma key_lt_true_chain a b :
  key_lt (sort_key a) (sort_key b) = Ok true -> chain_le a b.
Proof.
  unfold key_lt, chain_le. rewrite !sort_key_chain.
  destruct (String.eqb_spec (chain a) (chain b)) as [-> | Hc].
  - intros _. reflexivity.
  - intros [= H]. by apply str_lt_true_le.
Qed.

Lemma key_lt_false_chain a b :
  key_lt (sort_key a) (sort_key b) = Ok false -> chain_le b a.
Proof.
  unfold key_lt, chain_le. rewrite !sort_key_chain.
  destruct (String.eqb_spec (chain a) (chain b)) as [-> | Hc].
  - intros _. reflexivity.
  - intros [= H]. by apply str_lt_false_le.
Qed.

Lemma key_lt_true_same_chain a b :
  key_lt (sort_key a) (sort_key b) = Ok true -> chain a = chain b -> numeric a = numeric b.
Proof.
  intros H Hc. destruct (decide (numeric a = numeric b)) as [|Hn]; [done|].
  rewrite key_lt_clash in H; [done | by split].
Qed.

Lemma key_lt_true_strict a b :
  key_lt (sort_key a) (sort_key b) = Ok true -> chain a <> chain b -> ~ chain_le b a.
Proof.
  unfold key_lt, chain_le. rewrite !sort_key_chain.
  destruct (String.eqb_spec (chain a) (chain b)) as [-> | Hc]; [done|].
  intros [= H] _ Hle. apply str_lt_false_le in Hle. congruence.
Qed.


Lemma insort_perm x r r' : Py.insort key_lt sort_key x r = Ok r' -> Permutation (x :: r) r'.
Proof.
  revert r'. induction r as [|y r IH]; intros r' H; simpl in H.
  - by inversion H.
  - destruct (key_lt (sort_key x) (sort_key y)) as [[|]|]; [by inversion H | | done].
    destruct (Py.insort key_lt sort_key x r) as [r0|]; [|done].
    inversion H; subst. rewrite perm_swap. constructor. by apply IH.
Qed.

Lemma insort_raises x r e :
  Py.insort key_lt sort_key x r = Raise e -> e = TypeError.
Proof.
  induction r as [|y r IH]; simpl; [done|].
  destruct (key_lt (sort_key x) (sort_key y)) as [[|]|e'] eqn:Hk; [done | | ].
  - destruct (Py.insort key_lt sort_key x r); [done|]. intros [= <-]. by apply IH.
  - intros [= <-]. by apply key_lt_raises in Hk as [? _].
Qed.

Lemma insort_clash x r y :
  tidy r -> In y r -> clash x y -> Py.insort key_lt sort_key x r = Raise TypeError.
Proof.
  induction r as [|z r IH]; intros [Hs Hc] Hy Hxy; [done|].
  simpl. destruct (key_lt (sort_key x) (sort_key z)) as [[|]|e] eqn:Hk.
  - exfalso. destruct Hy as [-> | Hy]; [by rewrite key_lt_clash in Hk|].
    apply StronglySorted_inv in Hs as [_ Hz]. rewrite List.Forall_forall in Hz.
    destruct (decide (chain x = chain z)) as [Hxz | Hxz].
    + apply (Hc z y); [by left | by right |].
      destruct Hxy as [Hch Hn]. split; [congruence|].
      rewrite <- (key_lt_true_same_chain _ _ Hk Hxz). done.
    + apply (key_lt_true_strict _ _ Hk Hxz). destruct Hxy as [Hch _].
      unfold chain_le. rewrite Hch. exact (Hz y Hy).
  - destruct Hy as [-> | Hy]; [by rewrite key_lt_clash in Hk|].
    rewrite IH; [done | | done | done].
    split; [by apply StronglySorted_inv in Hs as [? _]|].
    intros a b Ha Hb. apply Hc; by right.
  - by apply key_lt_raises in Hk as [-> _].
Qed.

Lemma insort_tidy x r r' :
  tidy r -> Py.insort key_lt sort_key x r = Ok r' -> tidy r'.
Proof.
  intros Ht H.
  assert (Hno : forall y, In y r -> ~ clash x y).
  { intros y Hy Hxy. by rewrite (insort_clash x r y) in H. }
  split.
  - clear Hno. destruct Ht as [Hs _]. revert r' H.
    induction r as [|z r IH]; intros r' H; simpl in H.
    + inversion H. repeat constructor.
    + apply StronglySorted_inv in Hs as [Hs Hz].
      destruct (key_lt (sort_key x) (sort_key z)) as [[|]|] eqn:Hk; [| |done].
      * inversion H; subst. constructor; [by constructor|].
        apply key_lt_true_chain in Hk. constructor; [done|].
        eapply List.Forall_impl; [|exact Hz]. intros a Ha. unfold chain_le in *. by etrans.
      * destruct (Py.insort key_lt sort_key x r) as [r0|] eqn:Hr; [|done].
        inversion H; subst. constructor; [by apply IH|].
        apply insort_perm in Hr. rewrite <- Hr. constructor; [|done].
        by apply key_lt_false_chain in Hk.
  - destruct Ht as [_ Hc]. intros a b Ha Hb.
    apply insort_perm in H.
    apply (Permutation_in _ (Permutation_sym H)) in Ha, Hb.
    destruct Ha as [<- | Ha], Hb as [<- | Hb].
    + intros [_ ?]. done.
    + by apply Hno.
    + intros [Hch Hn]. apply (Hno a Ha). split; [done|congruence].
    + by apply Hc.
Qed.

Local Notation "'sort_step'" := (Py.sort_step key_lt sort_key).

Lemma sort_atoms_fold l : sort_atoms l = fold_left sort_step l (Ok []).
Proof. reflexivity. Qed.

Lemma sort_raise_sticky l e : fold_left sort_step l (Raise e) = Raise e.
Proof. induction l; simpl; auto. Qed.

Lemma sort_from_raises l r e :
  fold_left sort_step l (Ok r) = Raise e -> e = TypeError.
Proof.
  revert r. induction l as [|x l IH]; intros r; simpl; [done|].
  destruct (Py.insort key_lt sort_key x r) as [r'|e'] eqn:Hi.
  - apply IH.
  - rewrite sort_raise_sticky. intros [= <-]. by apply insort_raises in Hi.
Qed.

Lemma sort_from_ok l r r' :
  tidy r -> fold_left sort_step l (Ok r) = Ok r' -> tidy r' /\ Permutation (r ++ l) r'.
Proof.
  revert r. induction l as [|x l IH]; intros r Ht; simpl.
  - intros [= <-]. by rewrite app_nil_r.
  - destruct (Py.insort key_lt sort_key x r) as [r0|e'] eqn:Hi.
    + intros H. destruct (IH r0 (insort_tidy _ _ _ Ht Hi) H) as [Ht' Hp].
      split; [done|]. rewrite <- Hp. apply insort_perm in Hi. rewrite <- Hi.
      simpl. symmetry. apply Permutation_middle.
    + by rewrite sort_raise_sticky.
Qed.

Lemma sort_from_clash l r a b :
  tidy r -> In a (r ++ l) -> In b (r ++ l) -> clash a b ->
  fold_left sort_step l (Ok r) = Raise TypeError.
Proof.
  intros Ht Ha Hb Hab.
  destruct (fold_left sort_step l (Ok r)) as [r'|e] eqn:Hf.
  - exfalso. destruct (sort_from_ok _ _ _ Ht Hf) as [[_ Hc] Hp].
    apply (Hc a b); [| | done]; by eapply Permutation_in.
  - by apply sort_from_raises in Hf as ->.
Qed.

Lemma tidy_nil : tidy [].
Proof. split; [constructor | intros ? ? []]. Qed.

(** The sort raises as soon as the list holds a clash. *)
Lemma sort_atoms_clash l a b :
  In a l -> In b l -> clash a b -> sort_atoms l = Raise TypeError.
Proof. intros. by apply (sort_from_clash l [] a b tidy_nil). Qed.

(** When it returns, the result is a rearrangement of the input, ordered by
    chain. *)
Lemma sort_atoms_ok l r :
  sort_atoms l = Ok r -> Permutation l r /\ tidy r.
Proof.
  intros H. destruct (sort_from_ok l [] r tidy_nil H). by split.
Qed.

Lemma sort_atoms_length l r : sort_atoms l = Ok r -> length r = length l.
Proof. intros H. apply sort_atoms_ok in H as [Hp _]. by rewrite Hp. Qed.

Lemma sort_atoms_raises l e : sort_atoms l = Raise e -> e = TypeError.
Proof. apply sort_from_raises. Qed.

Lemma insort_no_clash x r :
  (forall y, In y r -> ~ clash x y) -> exists r', Py.insort key_lt sort_key x r = Ok r'.
Proof.
  induction r as [|y r IH]; intros Hn; simpl; [eauto|].
  destruct (key_lt_no_clash x y) as [[|] ->]; [apply Hn; by left | eauto |].
  destruct IH as [r' ->]; [|eauto]. intros z Hz. apply Hn. by right.
Qed.

(** Without a clash the sort returns. *)
Lemma sort_atoms_no_clash l :
  (forall a b, In a l -> In b l -> ~ clash a b) -> exists r, sort_atoms l = Ok r.
Proof.
  intros Hn. rewrite sort_atoms_fold.
  assert (H : forall l r, tidy r ->
            (forall a b, In a (r ++ l) -> In b (r ++ l) -> ~ clash a b) ->
            exists r', fold_left sort_step l (Ok r) = Ok r').
  { clear. induction l as [|x l IH]; intros r Ht Hn; simpl; [eauto|].
    destruct (insort_no_clash x r) as [r0 Hi].
    { intros y Hy. apply Hn; apply in_or_app; [right; by left | by left]. }
    rewrite Hi. apply IH; [by eapply insort_tidy|].
    apply insort_perm in Hi. intros a b Ha Hb.
    apply Hn; rewrite <- Permutation_middle; rewrite (app_comm_cons r l x);
      (eapply Permutation_in; [apply Permutation_app_tail, Permutation_sym, Hi | done]). }
  apply H; [apply tidy_nil | done].
Qed.

Lemma str_lt_asym a b : Py.str_lt a b = true -> Py.str_lt b a = false.
Proof. intros H. apply str_lt_false_le. by apply str_lt_true_le. Qed.

Lemma str_lt_trans a b c : Py.str_lt a b = true -> Py.str_lt b c = true -> Py.str_lt a c = true.
Proof.
  intros Hab Hbc. destruct (Py.str_lt a c) eqn:Hac; [done|].
  apply str_lt_false_le in Hac. apply str_lt_true_le in Hab.
  assert (Hcb : String.le c b) by (by etrans).
  apply str_lt_false_le in Hcb. congruence.
Qed.

Lemma key_lt_asym a b :
  key_lt (sort_key a) (sort_key b) = Ok true -> atom_le a b.
Proof.
  unfold atom_le, key_lt, sort_key.
  destruct (Py.int (resi a)) as [za|], (Py.int (resi b)) as [zb|]; simpl;
    destruct (String.eqb_spec (chain a) (chain b)) as [-> | Hc];
    rewrite ?String.eqb_refl; try discriminate;
    try (destruct (String.eqb_spec (chain b) (chain a)) as [E | _]; [by symmetry in E|]);
    intros [= H]; f_equal; try (by apply str_lt_asym); lia.
Qed.

Lemma key_lt_trans a b c :
  key_lt (sort_key a) (sort_key b) = Ok true ->
  key_lt (sort_key b) (sort_key c) = Ok true ->
  key_lt (sort_key a) (sort_key c) = Ok true.
Proof.
  unfold key_lt. rewrite !sort_key_chain.
  destruct (String.eqb_spec (chain a) (chain b)) as [Hab | Hab];
    destruct (String.eqb_spec (chain b) (chain c)) as [Hbc | Hbc].
  - rewrite <- Hbc, Hab, String.eqb_refl. unfold sort_key.
    destruct (Py.int (resi a)), (Py.int (resi b)), (Py.int (resi c)); simpl;
      try discriminate; intros [= H1] [= H2]; f_equal;
      [lia | by eapply str_lt_trans].
  - rewrite Hab. destruct (String.eqb_spec (chain b) (chain c)); [done|]. by intros _.
  - rewrite <- Hbc. destruct (String.eqb_spec (chain a) (chain b)); [done|]. by intros ? _.
  - intros [= H1] [= H2]. pose proof (str_lt_trans _ _ _ H1 H2) as H.
    destruct (String.eqb_spec (chain a) (chain c)) as [E | _]; [|by rewrite H].
    rewrite E, str_lt_irrefl in H. discriminate.
Qed.

Lemma insort_sorted x r r' :
  tidy r -> StronglySorted atom_le r ->
  Py.insort key_lt sort_key x r = Ok r' -> StronglySorted atom_le r'.
Proof.
  intros Ht Hs H.
  assert (Hno : forall y, In y r -> ~ clash y x).
  { intros y Hy [Hc Hn]. rewrite (insort_clash x r y) in H; [done..|].
    split; [done|congruence]. }
  clear Ht. revert r' H. induction r as [|z r IH]; intros r' H; simpl in H.
  - inversion H. repeat constructor.
  - apply StronglySorted_inv in Hs as [Hs Hz].
    destruct (key_lt (sort_key x) (sort_key z)) as [[|]|] eqn:Hk; [| |done].
    + inversion H; subst. constructor; [by constructor|].
      constructor; [by apply key_lt_asym|].
      apply List.Forall_forall. intros y Hy.
      rewrite List.Forall_forall in Hz. specialize (Hz y Hy). unfold atom_le in *.
      destruct (key_lt_no_clash y x) as [[|] Hyx]; [apply Hno; by right | | done].
      by rewrite (key_lt_trans _ _ _ Hyx Hk) in Hz.
    + destruct (Py.insort key_lt sort_key x r) as [r0|] eqn:Hr; [|done].
      inversion H; subst. constructor.
      * apply IH; [done | | done]. intros y Hy. apply Hno. by right.
      * apply insort_perm in Hr. rewrite <- Hr. by constructor.
Qed.

(** When the sort returns, no atom of the result is followed by one with a
    smaller key. *)
Lemma sort_atoms_sorted l r : sort_atoms l = Ok r -> StronglySorted atom_le r.
Proof.
  rewrite sort_atoms_fold.
  assert (H : forall l r0, tidy r0 -> StronglySorted atom_le r0 ->
            fold_left sort_step l (Ok r0) = Ok r -> StronglySorted atom_le r).
  { clear. induction l as [|x l IH]; intros r0 Ht Hs; simpl; [by intros [= <-]|].
    destruct (Py.insort key_lt sort_key x r0) as [r1|] eqn:Hi.
    - apply IH; [by eapply insort_tidy | by eapply insort_sorted].
    - by rewrite sort_raise_sticky. }
  apply H; [apply tidy_nil | constructor].
Qed.

End SortAtoms.

(** ** Strings *)

Lemma sapp_cons c s t : String c s +:+ t = String c (s +:+ t).
Proof. reflexivity. Qed.

Lemma sapp_nil_l s : "" +:+ s = s.
Proof. reflexivity. Qed.

Lemma sapp_nil_r s : s +:+ "" = s.
Proof. induction s as [|c s IH]; [done|]. by rewrite sapp_cons, IH. Qed.

Lemma sapp_assoc s t u : (s +:+ t) +:+ u = s +:+ (t +:+ u).
Proof. induction s as [|c s IH]; [done|]. by rewrite !sapp_cons, IH. Qed.

Lemma sapp_length s t : String.length (s +:+ t) = String.length s + String.length t.
Proof. induction s as [|c s IH]; [done|]. rewrite sapp_cons. simpl. by rewrite IH. Qed.

Lemma sapp_inv_tail s t u : s +:+ u = t +:+ u -> s = t.
Proof.
  revert t. induction s as [|c s IH]; intros [|d t] H; [done| | |].
  - exfalso. apply (f_equal String.length) in H. rewrite sapp_nil_l, sapp_cons in H.
    simpl in H. rewrite sapp_length in H. lia.
  - exfalso. apply (f_equal String.length) in H. rewrite sapp_nil_l, sapp_cons in H.
    simpl in H. rewrite sapp_length in H. lia.
  - rewrite !sapp_cons in H. inversion H; subst. f_equal. by apply IH.
Qed.

(** ** Stage 2: the extraction *)

Section Extraction.
Import SeqAlignment.

Lemma letters_nil : letters [] = "".
Proof. reflexivity. Qed.

Lemma letters_cons a l : letters (a :: l) = letter a +:+ letters l.
Proof. reflexivity. Qed.

(** The pairing loop reads the first [n] atoms of both lists. *)
Lemma pair_loop_from n : forall i ra ta a b,
  i + n <= length ra -> i + n <= length ta ->
  pair_loop (seq i n) ra ta a b =
  Ok (a +:+ letters (take n (drop i ra)), b +:+ letters (take n (drop i ta))).
Proof.
  induction n as [|n IH]; intros i ra ta a b Hr Ht; simpl.
  - by rewrite !take_0, letters_nil, !sapp_nil_r.
  - destruct (lookup_lt_is_Some_2 ra i) as [x Hx]; [lia|].
    destruct (lookup_lt_is_Some_2 ta i) as [y Hy]; [lia|].
    rewrite Hx, Hy, IH by lia.
    rewrite (drop_S _ _ _ Hx), (drop_S _ _ _ Hy). simpl.
    by rewrite !letters_cons, !sapp_assoc.
Qed.

Lemma pair_loop_seq n ra ta :
  n <= length ra -> n <= length ta ->
  pair_loop (seq 0 n) ra ta "" "" = Ok (letters (take n ra), letters (take n ta)).
Proof. intros. by rewrite pair_loop_from. Qed.

(** Every residue gives exactly one letter. *)
Lemma letter_one a : exists c, letter a = String c "".
Proof.
  unfold letter. generalize (Py.upper (resn a)). intros k.
  unfold THREE_TO_ONE. simpl.
  repeat (match goal with
          | |- context [String.eqb k ?x] => destruct (String.eqb k x); [eauto|]
          end).
  eauto.
Qed.

Lemma letters_length l : String.length (letters l) = length l.
Proof.
  induction l as [|a l IH]; [done|].
  rewrite letters_cons, sapp_length, IH. destruct (letter_one a) as [c ->]. done.
Qed.

Lemma is_empty_false {A} (l : list A) : is_empty l = false -> 0 < length l.
Proof. destruct l; simpl; [done | lia]. Qed.

Ltac run :=
  unfold extract_aligned_sequence, process_target, with_block,
    cmd_select, cmd_get_model, cmd_load, cmd_get_object_list, write_file,
    logging, emit, try_except, bind, ret, raise, lift; simpl.

Ltac fin := simpl; rewrite <- ?app_assoc; reflexivity.

Ltac use_eqs :=
  repeat (simpl; first
    [ match goal with H : _ = _ |- _ => rewrite H end
    | rewrite lookup_insert_eq
    | rewrite lookup_insert_ne by done ]).

Ltac settle := intros s; run; use_eqs; fin.

(** [extract_aligned_sequence] does what [extract_summary] lays out, frames
    the trace and leaves the files alone. *)
Lemma extract_run w t : forall s,
  extract_aligned_sequence w t s =
  (fst (extract_summary w t),
   {| trace := trace s ++ snd (extract_summary w t);
      sels := extract_sels w t (sels s);
      files := files s |}).
Proof.
  unfold extract_sels, extract_summary.
  destruct (select_error w (ref_sel t)) eqn:E1; [settle|].
  destruct (select_error w (target_sel t)) eqn:E2; [settle|].
  destruct (model_of w (ref_sel t)) as [ra|] eqn:E3; [|settle].
  destruct (model_of w (target_sel t)) as [ta|] eqn:E4; [|settle].
  destruct (is_empty ra || is_empty ta) eqn:E5; [settle|].
  destruct (sort_atoms ra) as [sra|] eqn:E6; [|settle].
  destruct (sort_atoms ta) as [sta|] eqn:E7; [|settle].
  destruct (orb_false_elim _ _ E5) as [Hra Hta].
  apply is_empty_false in Hra, Hta.
  pose proof (sort_atoms_length _ _ E6) as L6.
  pose proof (sort_atoms_length _ _ E7) as L7.
  assert (E8 : (Nat.min (length sra) (length sta) =? 0) = false)
    by (apply Nat.eqb_neq; lia).
  assert (E10 := pair_loop_seq (Nat.min (length sra) (length sta)) sra sta
                   (Nat.le_min_l _ _) (Nat.le_min_r _ _)).
  clear L6 L7 Hra Hta.
  destruct (length sra =? length sta) eqn:E9; settle.
Qed.

Lemma extraction_summary w t : extraction w t = fst (extract_summary w t).
Proof. unfold extraction. by rewrite extract_run. Qed.

End Extraction.

(** ** Stage 2: the loop and [main] *)

Section SeqAlignmentRun.
Import SeqAlignment.

Lemma process_target_run w t s :
  process_target w t s =
  (fst (fst (process_summary w t)),
   {| trace := trace s ++ snd (fst (process_summary w t));
      sels := extract_sels w t (sels s);
      files := put (snd (process_summary w t)) (files s) |}).
Proof.
  unfold process_target, process_summary, bind, logging, emit. simpl.
  rewrite extract_run. simpl.
  destruct (fst (extract_summary w t)) as [[[r q]|]|e]; simpl.
  - unfold try_except, write_file, bind, raise, logging, emit.
    destruct (open_error w (output_filename t)); simpl;
      rewrite <- ?app_assoc; reflexivity.
  - rewrite <- ?app_assoc. reflexivity.
  - rewrite <- ?app_assoc. reflexivity.
Qed.

(** One turn raises exactly when the extraction does. *)
Lemma process_target_outcome w t s :
  fst (process_target w t s) =
  match extraction w t with
  | Raise e => Raise e
  | Ok _ => Ok tt
  end.
Proof.
  rewrite process_target_run, extraction_summary. unfold process_summary. simpl.
  destruct (fst (extract_summary w t)) as [[[r q]|]|e]; simpl; try done.
  by destruct (open_error w (output_filename t)).
Qed.

Lemma process_target_files w t s :
  files (snd (process_target w t s)) =
  match extraction w t, open_error w (output_filename t) with
  | Ok (Some (r, q)), None => <[output_filename t := fasta_output t r q]> (files s)
  | _, _ => files s
  end.
Proof.
  rewrite process_target_run, extraction_summary. unfold process_summary. simpl.
  destruct (fst (extract_summary w t)) as [[[r q]|]|e]; simpl; try done.
  by destruct (open_error w (output_filename t)).
Qed.

Lemma output_filename_inj t t' : output_filename t = output_filename t' -> t = t'.
Proof. apply sapp_inv_tail. Qed.

(** A file written for a target survives the rest of the loop. *)
Lemma loop_keeps_file w t r q l : forall s,
  extraction w t = Ok (Some (r, q)) ->
  files s !! output_filename t = Some (fasta_output t r q) ->
  files (snd (for_each (process_target w) l s)) !! output_filename t
  = Some (fasta_output t r q).
Proof.
  induction l as [|x l IH]; intros s He Hf; [done|].
  simpl. unfold bind.
  destruct (process_target w x s) as [o s1] eqn:Hp.
  assert (Hf1 : files s1 !! output_filename t = Some (fasta_output t r q)).
  { replace s1 with (snd (process_target w x s)) by (by rewrite Hp).
    rewrite process_target_files.
    destruct (extraction w x) as [[[r' q']|]|] eqn:Hx; try done.
    destruct (open_error w (output_filename x)); [done|].
    destruct (decide (x = t)) as [-> | Hne].
    - rewrite He in Hx. inversion Hx; subst. by rewrite lookup_insert_eq.
    - rewrite lookup_insert_ne; [done|]. intros E. by apply output_filename_inj in E. }
  destruct o; [by apply IH | done].
Qed.

(** When the loop runs to its end, every target whose extraction succeeded
    and whose file could be opened has its file. *)
Lemma loop_writes w t r q l : forall s s',
  for_each (process_target w) l s = (Ok tt, s') ->
  In t l ->
  extraction w t = Ok (Some (r, q)) ->
  open_error w (output_filename t) = None ->
  files s' !! output_filename t = Some (fasta_output t r q).
Proof.
  induction l as [|x l IH]; intros s s' Hrun Hin He Ho; [done|].
  simpl in Hrun. unfold bind in Hrun.
  destruct (process_target w x s) as [o s1] eqn:Hp.
  destruct o as [[]|]; [|done].
  destruct (decide (x = t)) as [-> | Hne].
  - replace s' with (snd (for_each (process_target w) l s1)) by (by rewrite Hrun).
    apply loop_keeps_file; [done|].
    replace s1 with (snd (process_target w t s)) by (by rewrite Hp).
    by rewrite process_target_files, He, Ho, lookup_insert_eq.
  - destruct Hin as [? | Hin]; [done|]. by eapply IH.
Qed.

(** The loop raises [TypeError] as soon as one extraction does. *)
Lemma loop_raises w t l : forall s,
  In t l -> extraction w t = Raise TypeError ->
  fst (for_each (process_target w) l s) = Raise TypeError.
Proof.
  induction l as [|x l IH]; intros s Hin He; [done|].
  simpl. unfold bind.
  destruct (process_target w x s) as [o s1] eqn:Hp.
  pose proof (process_target_outcome w x s) as Ho. rewrite Hp in Ho. simpl in Ho.
  destruct (extraction w x) as [v|e] eqn:Hx.
  - subst o. destruct Hin as [-> | Hin]; [congruence|]. by apply IH.
  - subst o. simpl. f_equal.
    rewrite extraction_summary in Hx. unfold extract_summary in Hx.
    repeat case_match; simpl in Hx; try discriminate;
      inversion Hx; subst; by eapply sort_atoms_raises.
Qed.

End SeqAlignmentRun.

Section SeqAlignmentMain.
Import SeqAlignment.

Lemma push_push a b s : push b (push a s) = push (a ++ b) s.
Proof. unfold push. simpl. by rewrite app_assoc. Qed.

(** [main], case by case. *)
Lemma main_run w s :
  main w s =
  match load_error w session_file "session" with
  | Some e => (Ok tt, push (main_prelude ++ [EvLog LError (MLoadFailed e); EvClose]) s)
  | None =>
      if is_empty (target_objects w)
      then (Ok tt, push (main_prelude ++
                         [EvCall CGetObjectList; EvLog LError MNoTargets; EvClose]) s)
      else
        match for_each (process_target w) (target_objects w)
                (push (main_prelude ++ [EvCall CGetObjectList]) s) with
        | (Ok _, s1) => (Ok tt, push [EvClose; EvLog LInfo MEnd] s1)
        | (Raise e, s1) => (Raise e, push [EvClose] s1)
        end
  end.
Proof.
  unfold main, main_body, with_block, try_except, cmd_load, cmd_get_object_list,
    bind, logging, emit, raise, ret, push, main_prelude, target_objects. simpl.
  destruct (load_error w session_file "session"); simpl.
  { by rewrite <- !app_assoc. }
  destruct (is_empty (List.filter is_target (object_list w))); simpl.
  { by rewrite <- !app_assoc. }
  rewrite <- !app_assoc. simpl.
  destruct (for_each _ _ _) as [[[]|e] s1]; simpl; by rewrite <- ?app_assoc.
Qed.

Lemma in_target_objects w t :
  In t (target_objects w) <-> In t (object_list w) /\ is_target t = true.
Proof. apply filter_In. Qed.

Lemma is_empty_in {A} (l : list A) x : In x l -> is_empty l = false.
Proof. by destruct l. Qed.

(** What a successful extraction returns. *)
Lemma extraction_some w t r q :
  extraction w t = Ok (Some (r, q)) ->
  exists ra ta sra sta,
    selected w t ra ta /\ ra <> [] /\ ta <> [] /\
    sort_atoms ra = Ok sra /\ sort_atoms ta = Ok sta /\
    r = letters (take (Nat.min (length ra) (length ta)) sra) /\
    q = letters (take (Nat.min (length ra) (length ta)) sta).
Proof.
  rewrite extraction_summary. unfold extract_summary, selected.
  destruct (select_error w (ref_sel t)) eqn:E1; [done|].
  destruct (select_error w (target_sel t)) eqn:E2; [done|].
  destruct (model_of w (ref_sel t)) as [ra|] eqn:E3; [|done].
  destruct (model_of w (target_sel t)) as [ta|] eqn:E4; [|done].
  destruct (is_empty ra || is_empty ta) eqn:E5; [done|].
  destruct (sort_atoms ra) as [sra|] eqn:E6; [|done].
  destruct (sort_atoms ta) as [sta|] eqn:E7; [|done].
  simpl. intros [= <- <-]. exists ra, ta, sra, sta.
  rewrite (sort_atoms_length _ _ E6), (sort_atoms_length _ _ E7).
  apply orb_false_elim in E5 as [Hra Hta].
  repeat split; try done; by intros ->.
Qed.

(** The extraction raises nothing but [TypeError], and only from a sort. *)
Lemma extraction_raises w t e :
  extraction w t = Raise e ->
  e = TypeError /\
  exists ra ta, selected w t ra ta /\ ra <> [] /\ ta <> [] /\
    (sort_atoms ra = Raise TypeError \/ sort_atoms ta = Raise TypeError).
Proof.
  rewrite extraction_summary. unfold extract_summary, selected.
  destruct (select_error w (ref_sel t)) eqn:E1; [done|].
  destruct (select_error w (target_sel t)) eqn:E2; [done|].
  destruct (model_of w (ref_sel t)) as [ra|] eqn:E3; [|done].
  destruct (model_of w (target_sel t)) as [ta|] eqn:E4; [|done].
  destruct (is_empty ra || is_empty ta) eqn:E5; [done|].
  apply orb_false_elim in E5 as [Hra Hta].
  assert (ra <> [] /\ ta <> []) as [? ?] by (split; by intros ->).
  destruct (sort_atoms ra) as [sra|e1] eqn:E6.
  - destruct (sort_atoms ta) as [sta|e2] eqn:E7; [done|].
    simpl. intros [= <-]. apply sort_atoms_raises in E7 as Ht. subst.
    split; [done|]. exists ra, ta. auto 10.
  - simpl. intros [= <-]. apply sort_atoms_raises in E6 as Ht. subst.
    split; [done|]. exists ra, ta. auto 10.
Qed.

(** A clash in either selection makes the extraction raise. *)
Lemma extraction_clash w t ra ta a b :
  selected w t ra ta -> ra <> [] -> ta <> [] ->
  (In a ra /\ In b ra) \/ (In a ta /\ In b ta) -> clash a b ->
  extraction w t = Raise TypeError.
Proof.
  intros (E1 & E2 & E3 & E4) Hra Hta Hin Hc.
  rewrite extraction_summary. unfold extract_summary. rewrite E1, E2, E3, E4.
  destruct ra as [|x ra]; [done|]. destruct ta as [|y ta]; [done|]. simpl.
  destruct (sort_atoms (x :: ra)) as [sra|e1] eqn:E6.
  - destruct Hin as [[Ha Hb] | [Ha Hb]].
    + by rewrite (sort_atoms_clash _ a b Ha Hb Hc) in E6.
    + by rewrite (sort_atoms_clash _ a b Ha Hb Hc).
  - by apply sort_atoms_raises in E6 as ->.
Qed.

End SeqAlignmentMain.

Section SeqAlignmentTrace.
Import SeqAlignment.

Lemma extract_summary_events w t e :
  In e (snd (extract_summary w t)) ->
  match e with
  | EvCall (CSelect _ _) | EvCall (CGetModel _) => True
  | EvLog LInfo (MCreateSel _ _ _) | EvLog LInfo (MCount _ _) => True
  | EvLog LWarning (MMismatch _ _ _) => True
  | EvLog LError (MSelectFailed _) | EvLog LError (MModelFailed _)
  | EvLog LError MNoAtoms => True
  | _ => False
  end.
Proof.
  unfold extract_summary.
  repeat case_match; simpl; rewrite ?in_app_iff; simpl; intuition (subst; done).
Qed.

Ltac in_cases H :=
  rewrite ?in_app_iff in H; simpl in H; repeat destruct H as [H|H];
  try discriminate H; try (by apply extract_summary_events in H); try done.

Lemma process_summary_write w t file content :
  In (EvWrite file content) (snd (fst (process_summary w t))) ->
  exists r q, extraction w t = Ok (Some (r, q)) /\
    open_error w (output_filename t) = None /\
    file = output_filename t /\ content = fasta_output t r q.
Proof.
  unfold process_summary. rewrite extraction_summary.
  destruct (fst (extract_summary w t)) as [[[r q]|]|e] eqn:Hx; simpl;
    [destruct (open_error w (output_filename t)) eqn:Ho; simpl|..];
    intros H; in_cases H.
  inversion H; subst. by exists r, q.
Qed.

Lemma process_summary_failed w t t' :
  In (EvLog LError (MExtractFailed t')) (snd (fst (process_summary w t))) ->
  t' = t /\ extraction w t = Ok None.
Proof.
  unfold process_summary. rewrite extraction_summary.
  destruct (fst (extract_summary w t)) as [[[r q]|]|e] eqn:Hx; simpl;
    [destruct (open_error w (output_filename t)) eqn:Ho; simpl|..];
    intros H; in_cases H.
  by inversion H.
Qed.

(** The warning about unequal counts is part of the extraction's events. *)
Lemma mismatch_logged w t ra ta r q :
  selected w t ra ta -> extraction w t = Ok (Some (r, q)) ->
  length ra <> length ta ->
  In (EvLog LWarning (MMismatch t (length ra) (length ta))) (snd (extract_summary w t)).
Proof.
  intros (E1 & E2 & E3 & E4). rewrite extraction_summary.
  unfold extract_summary. rewrite E1, E2, E3, E4.
  destruct (is_empty ra || is_empty ta); [done|].
  destruct (sort_atoms ra) as [sra|] eqn:E6; [|done].
  destruct (sort_atoms ta) as [sta|] eqn:E7; [|done].
  rewrite (sort_atoms_length _ _ E6), (sort_atoms_length _ _ E7).
  intros _ Hne. apply Nat.eqb_neq in Hne. rewrite Hne. simpl. auto 10.
Qed.

(** The trace of the loop: the events of the turns it took, in order. *)
Lemma loop_trace w l : forall s,
  exists k,
    trace (snd (for_each (process_target w) l s)) =
    trace s ++ flat_map (fun t => snd (fst (process_summary w t))) (take k l).
Proof.
  induction l as [|x l IH]; intros s.
  - exists 0. simpl. by rewrite app_nil_r.
  - simpl. unfold bind. rewrite process_target_run.
    destruct (fst (fst (process_summary w x))).
    + destruct (IH {| trace := trace s ++ snd (fst (process_summary w x));
                      sels := extract_sels w x (sels s);
                      files := put (snd (process_summary w x)) (files s) |}) as [k Hk].
      exists (S k). rewrite Hk. simpl. by rewrite app_assoc.
    + exists 1. simpl. by rewrite ?take_0, app_nil_r.
Qed.

(** The trace of a run of [main] from an empty trace: fixed events around the
    events of the turns taken. *)
Lemma main_trace w fs :
  exists pre turns post,
    trace (snd (main w (initial fs))) =
      pre ++ flat_map (fun t => snd (fst (process_summary w t))) turns ++ post /\
    (forall t, In t turns -> In t (target_objects w)) /\
    (forall e, In e (pre ++ post) -> fixed_event e).
Proof.
  rewrite main_run.
  destruct (load_error w session_file "session").
  { eexists _, [], []. simpl. rewrite app_nil_r. split; [reflexivity|]. split; [done|].
    intros ev H. rewrite ?app_nil_r in H. simpl in H.
    repeat destruct H as [H|H]; try subst ev; done. }
  destruct (is_empty (target_objects w)).
  { eexists _, [], []. simpl. rewrite app_nil_r. split; [reflexivity|]. split; [done|].
    intros ev H. rewrite ?app_nil_r in H. simpl in H.
    repeat destruct H as [H|H]; try subst ev; done. }
  destruct (for_each _ _ _) as [o s1] eqn:Hl.
  destruct (loop_trace w (target_objects w) (push (main_prelude ++ [EvCall CGetObjectList])
                                               (initial fs))) as [k Hk].
  rewrite Hl in Hk. simpl in Hk.
  exists (main_prelude ++ [EvCall CGetObjectList]), (take k (target_objects w)),
    (match o with Ok _ => [EvClose; EvLog LInfo MEnd] | Raise _ => [EvClose] end).
  split; [|split].
  - destruct o as [[]|]; simpl; rewrite Hk; simpl; by rewrite <- ?app_assoc.
  - intros t Ht. apply list_elem_of_In. eapply subseteq_take, list_elem_of_In, Ht.
  - intros ev H. destruct o; simpl in H;
      repeat destruct H as [H|H]; try subst ev; done.
Qed.

(** The trace and the files of the loop: those of the turns it took. *)
Lemma loop_turns w l : forall s,
  exists k,
    trace (snd (for_each (process_target w) l s)) =
    trace s ++ flat_map (fun t => snd (fst (process_summary w t))) (take k l) /\
    files (snd (for_each (process_target w) l s)) =
    fold_left (fun fs t => put (snd (process_summary w t)) fs) (take k l) (files s).
Proof.
  induction l as [|x l IH]; intros s.
  - exists 0. simpl. by rewrite app_nil_r.
  - simpl. unfold bind. rewrite process_target_run.
    destruct (fst (fst (process_summary w x))).
    + destruct (IH {| trace := trace s ++ snd (fst (process_summary w x));
                      sels := extract_sels w x (sels s);
                      files := put (snd (process_summary w x)) (files s) |}) as (k & Hk & Hf).
      exists (S k). rewrite Hk, Hf. simpl. by rewrite app_assoc.
    + exists 1. simpl. by rewrite ?take_0, app_nil_r.
Qed.

(** The same for a run of [main]. *)
Lemma main_turns w fs :
  exists pre turns post,
    trace (snd (main w (initial fs))) =
      pre ++ flat_map (fun t => snd (fst (process_summary w t))) turns ++ post /\
    files (snd (main w (initial fs))) =
      fold_left (fun fs t => put (snd (process_summary w t)) fs) turns fs /\
    (forall t, In t turns -> In t (target_objects w)) /\
    (forall e, In e (pre ++ post) -> fixed_event e).
Proof.
  rewrite main_run.
  destruct (load_error w session_file "session").
  { eexists _, [], []. simpl. rewrite app_nil_r. split; [reflexivity|].
    split; [done|]. split; [done|].
    intros ev H. rewrite ?app_nil_r in H. simpl in H.
    repeat destruct H as [H|H]; try subst ev; done. }
  destruct (is_empty (target_objects w)).
  { eexists _, [], []. simpl. rewrite app_nil_r. split; [reflexivity|].
    split; [done|]. split; [done|].
    intros ev H. rewrite ?app_nil_r in H. simpl in H.
    repeat destruct H as [H|H]; try subst ev; done. }
  destruct (for_each _ _ _) as [o s1] eqn:Hl.
  destruct (loop_turns w (target_objects w) (push (main_prelude ++ [EvCall CGetObjectList])
                                               (initial fs))) as (k & Hk & Hf).
  rewrite Hl in Hk, Hf. simpl in Hk, Hf.
  exists (main_prelude ++ [EvCall CGetObjectList]), (take k (target_objects w)),
    (match o with Ok _ => [EvClose; EvLog LInfo MEnd] | Raise _ => [EvClose] end).
  split; [|split; [|split]].
  - destruct o as [[]|]; simpl; rewrite Hk; simpl; by rewrite <- ?app_assoc.
  - by destruct o as [[]|].
  - intros t Ht. apply list_elem_of_In. eapply subseteq_take, list_elem_of_In, Ht.
  - intros ev H. destruct o; simpl in H;
      repeat destruct H as [H|H]; try subst ev; done.
Qed.

(** The file a turn writes, if any, is that of its target and holds the
    pair extracted. *)
Lemma summary_file w t file content :
  snd (process_summary w t) = Some (file, content) ->
  exists r q, extraction w t = Ok (Some (r, q)) /\
    file = output_filename t /\ content = fasta_output t r q.
Proof.
  unfold process_summary. rewrite extraction_summary.
  destruct (fst (extract_summary w t)) as [[[r q]|]|e]; simpl; try done.
  destruct (open_error w (output_filename t)); simpl; [done|].
  intros [= <- <-]. by exists r, q.
Qed.

Lemma summary_file_written w t file content :
  In (EvWrite file content) (snd (fst (process_summary w t))) ->
  snd (process_summary w t) = Some (file, content).
Proof.
  intros H. apply process_summary_write in H as (r & q & Hx & Ho & -> & ->).
  unfold process_summary. rewrite <- extraction_summary, Hx, Ho. done.
Qed.

(** What a turn writes is still there after the turns that follow. *)
Lemma turns_keep_file w turns : forall fs0 t file content,
  In t turns -> snd (process_summary w t) = Some (file, content) ->
  fold_left (fun fs t => put (snd (process_summary w t)) fs) turns fs0 !! file
  = Some content.
Proof.
  induction turns as [|x turns IH] using rev_ind; intros fs0 t file content Hin Hs; [done|].
  rewrite fold_left_app. simpl.
  apply in_app_or in Hin as [Hin | [<- | []]].
  - specialize (IH fs0 t file content Hin Hs).
    destruct (snd (process_summary w x)) as [[f c]|] eqn:Hx; simpl; [|done].
    destruct (decide (f = file)) as [-> | Hne]; [|by rewrite lookup_insert_ne].
    destruct (summary_file _ _ _ _ Hs) as (r & q & _ & E & _).
    destruct (summary_file _ _ _ _ Hx) as (r' & q' & _ & E' & _).
    rewrite E in E'. apply output_filename_inj in E'. subst x.
    rewrite Hs in Hx. inversion Hx; subst. by rewrite lookup_insert_eq.
  - rewrite Hs. simpl. by rewrite lookup_insert_eq.
Qed.

(** A file that differs after the turns was written by one of them. *)
Lemma turns_changed_file w turns name : forall fs0,
  fold_left (fun fs t => put (snd (process_summary w t)) fs) turns fs0 !! name
  <> fs0 !! name ->
  exists t content, In t turns /\ snd (process_summary w t) = Some (name, content).
Proof.
  induction turns as [|x turns IH]; intros fs0 H; [done|]. simpl in H.
  destruct (decide (fold_left (fun fs t => put (snd (process_summary w t)) fs) turns
                      (put (snd (process_summary w x)) fs0) !! name
                    = put (snd (process_summary w x)) fs0 !! name)) as [E | Hne].
  - rewrite E in H. exists x.
    destruct (snd (process_summary w x)) as [[f c]|] eqn:Hx; simpl in H; [|done].
    destruct (decide (f = name)) as [-> | Hf]; [|by rewrite lookup_insert_ne in H].
    exists c. split; [by left | done].
  - destruct (IH _ Hne) as (t & content & Hin & Hs).
    exists t, content. split; [by right | done].
Qed.

End SeqAlignmentTrace.

(** ** Stage 2: the claims *)

Section SeqAlignmentClaims.
Import SeqAlignment.

(** C1, as the specification states it, fails: an object named [session] is
    an object other than the reference, its extraction succeeds, the run
    completes and every file can be opened, yet no file is written for it. *)
Lemma session_object_gets_no_file :
  ~ (forall w fs t r q,
       fst (main w (initial fs)) = Ok tt ->
       load_error w session_file "session" = None ->
       In t (object_list w) -> t <> "ref" ->
       extraction w t = Ok (Some (r, q)) ->
       open_error w (output_filename t) = None ->
       files (snd (main w (initial fs))) !! output_filename t
       = Some (fasta_output t r q)).
Proof.
  intros H.
  specialize (H Examples.w_pair ∅ "session" "A" "A").
  assert (E : files (snd (main Examples.w_pair (initial ∅))) !! output_filename "session"
              = None) by (vm_compute; reflexivity).
  rewrite E in H. discriminate H; try (vm_compute; reflexivity).
  - simpl. auto.
  - discriminate.
Qed.

(** C1 (amended): in a run that loads the session and completes, every
    object other than [ref] and [session] whose extraction succeeds, and
    whose file can be opened, gets the file [{target}_seq_align.fasta]; its
    content is the reference sequence under [>ref_aligned] followed by the
    target sequence under [>{target}_aligned], both read off the CA atoms the
    toolkit selects within 2.0 of the other structure. *)
Theorem target_alignment_written w fs t r q :
  fst (main w (initial fs)) = Ok tt ->
  load_error w session_file "session" = None ->
  In t (object_list w) -> is_target t = true ->
  extraction w t = Ok (Some (r, q)) ->
  open_error w (output_filename t) = None ->
  files (snd (main w (initial fs))) !! (t +:+ "_seq_align.fasta")
  = Some (">ref_aligned" +:+ Py.nl +:+ r +:+ Py.nl +:+
          ">" +:+ t +:+ "_aligned" +:+ Py.nl +:+ q +:+ Py.nl) /\
  exists ra ta sra sta,
    model_of w ("ref and name CA within 2.0 of " +:+ t) = Ok ra /\
    model_of w (t +:+ " and name CA within 2.0 of ref") = Ok ta /\
    sort_atoms ra = Ok sra /\ sort_atoms ta = Ok sta /\
    r = letters (take (Nat.min (length ra) (length ta)) sra) /\
    q = letters (take (Nat.min (length ra) (length ta)) sta).
Proof.
  intros Hok Hload Hin Htgt Hex Hopen. split.
  - assert (Ht : In t (target_objects w)) by (by apply in_target_objects).
    rewrite main_run, Hload, (is_empty_in _ _ Ht) in *.
    destruct (for_each _ _ _) as [[[]|e] s1] eqn:Hl; [|done].
    simpl. by eapply (loop_writes w t r q).
  - destruct (extraction_some _ _ _ _ Hex)
      as (ra & ta & sra & sta & (_ & _ & ? & ?) & _ & _ & ? & ? & ? & ?).
    by exists ra, ta, sra, sta.
Qed.

Lemma target_alignment_written_witness :
  files (snd (main Examples.w_pair (initial ∅))) !! ("t1" +:+ "_seq_align.fasta")
  = Some (">ref_aligned" +:+ Py.nl +:+ "GA" +:+ Py.nl +:+
          ">" +:+ "t1" +:+ "_aligned" +:+ Py.nl +:+ "VW" +:+ Py.nl).
Proof.
  apply (target_alignment_written Examples.w_pair ∅ "t1" "GA" "VW");
    try (vm_compute; reflexivity).
  simpl. auto.
Defined.

(** C5, as the specification states it, fails: with three reference atoms
    and two target atoms selected, the sequences the script returns are not
    the table lookups of the two sorted selections. *)
Lemma aligned_pair_is_not_sort_and_lookup :
  extraction Examples.w_pair "t1" = Ok (Some ("GA", "VW")) /\
  spec_aligned_pair Examples.w_pair "t1" = Ok (Some ("GAX", "VW")) /\
  extraction Examples.w_pair "t1" <> spec_aligned_pair Examples.w_pair "t1".
Proof. repeat split; vm_compute; congruence. Qed.

(** C5 (amended): given the two threshold selections of a target, the pair
    stage 2 returns is obtained by sorting each selection by chain and residue
    number, cutting both sorted lists to the length of the shorter one, and
    looking every residue up in the table (upper-cased name, "X" when
    absent); an empty selection gives no pair, a sort that raises is passed
    on, and nothing else enters the result.  A sort that returns gives a
    rearrangement of its input in which no atom is followed by one with a
    smaller key. *)
Theorem aligned_pair_is_sort_cut_lookup w t ra ta :
  selected w t ra ta ->
  extraction w t =
    (if is_empty ra || is_empty ta then Ok None
     else
       match sort_atoms ra, sort_atoms ta with
       | Ok sra, Ok sta =>
           let n := Nat.min (length ra) (length ta) in
           Ok (Some (Py.join (List.map letter (take n sra)),
                     Py.join (List.map letter (take n sta))))
       | Raise e, _ => Raise e
       | _, Raise e => Raise e
       end) /\
  (forall l r, sort_atoms l = Ok r -> Permutation l r /\ StronglySorted atom_le r).
Proof.
  intros (E1 & E2 & E3 & E4). split.
  - rewrite extraction_summary.
    unfold extract_summary. rewrite E1, E2, E3, E4.
    destruct (is_empty ra || is_empty ta); [done|].
    destruct (sort_atoms ra) as [sra|] eqn:E6; [|done].
    destruct (sort_atoms ta) as [sta|] eqn:E7; [|done].
    by rewrite (sort_atoms_length _ _ E6), (sort_atoms_length _ _ E7).
  - intros l r H. split; [by apply sort_atoms_ok in H as [? _] | by eapply sort_atoms_sorted].
Qed.

Lemma aligned_pair_is_sort_cut_lookup_witness :
  extraction Examples.w_pair "t1" = Ok (Some ("GA", "VW")).
Proof.
  rewrite (proj1 (aligned_pair_is_sort_cut_lookup Examples.w_pair "t1"
             [Examples.CA "A" "10" "ala"; Examples.CA "A" "9" "GLY";
              Examples.CA "A" "11" "MSE"]
             [Examples.CA "B" "2" "TRP"; Examples.CA "A" "5" "VAL"]
             ltac:(repeat split; vm_compute; reflexivity))).
  vm_compute. reflexivity.
Defined.

Lemma get_absent {V} (d : list (string * V)) k (x : V) :
  ~ In k (List.map fst d) -> Py.get d k x = x.
Proof.
  induction d as [|[k' v] d IH]; simpl; [done|]. intros H.
  destruct (String.eqb_spec k k') as [-> | _]; [tauto|]. apply IH. tauto.
Qed.

Lemma get_present {V} (d : list (string * V)) k v (x : V) :
  NoDup (List.map fst d) -> In (k, v) d -> Py.get d k x = v.
Proof.
  induction d as [|[k' v'] d IH]; simpl; [done|]. intros Hnd [[= -> ->] | Hin].
  - by rewrite String.eqb_refl.
  - apply NoDup_cons in Hnd as [Hk Hnd].
    destruct (String.eqb_spec k k') as [-> | _]; [|by apply IH].
    exfalso. apply Hk, list_elem_of_In, in_map_iff. by exists (k', v).
Qed.

Lemma three_to_one_keys : NoDup (List.map fst THREE_TO_ONE).
Proof.
  apply NoDup_ListNoDup.
  repeat (constructor; [simpl; intuition discriminate|]). constructor.
Qed.

(** The letter of an atom is the table's letter for its upper-cased residue
    name, and "X" when the table has no such key. *)
Lemma letter_lookup (a : atom) :
  (~ In (Py.upper (resn a)) (List.map fst THREE_TO_ONE) -> letter a = "X") /\
  (forall one, In (Py.upper (resn a), one) THREE_TO_ONE -> letter a = one).
Proof.
  split.
  - apply get_absent.
  - intros one Hin. by apply get_present; [apply three_to_one_keys|].
Qed.

(** The symbol at position [i] of the joined letters is the letter of the
    [i]-th atom. *)
Lemma substring_letters l : forall i a,
  l !! i = Some a -> String.substring i 1 (letters l) = letter a.
Proof.
  induction l as [|x l IH]; intros i a Hi; [done|].
  rewrite letters_cons. destruct (letter_one x) as [c Hc].
  destruct i as [|i]; simpl in Hi.
  - inversion Hi; subst. rewrite Hc, sapp_cons, sapp_nil_l. simpl.
    by destruct (letters l).
  - rewrite Hc, sapp_cons, sapp_nil_l. simpl. by apply IH.
Qed.

(** C6: the table holds the 20 standard three-letter codes with their
    one-letter codes.  For a target whose two selections are answered, not
    empty and sorted, the extraction returns a pair of sequences whatever the
    residue names are, one symbol for each residue it pairs: at each position
    of either sequence the symbol is "X" when the upper-cased name of the
    residue there is no key of the table, and the table's one-letter code
    when it is. *)
Theorem residue_symbols_by_lookup w t ra ta sra sta :
  selected w t ra ta -> ra <> [] -> ta <> [] ->
  sort_atoms ra = Ok sra -> sort_atoms ta = Ok sta ->
  THREE_TO_ONE =
    [("ALA", "A"); ("ARG", "R"); ("ASN", "N"); ("ASP", "D"); ("CYS", "C");
     ("GLU", "E"); ("GLN", "Q"); ("GLY", "G"); ("HIS", "H"); ("ILE", "I");
     ("LEU", "L"); ("LYS", "K"); ("MET", "M"); ("PHE", "F"); ("PRO", "P");
     ("SER", "S"); ("THR", "T"); ("TRP", "W"); ("TYR", "Y"); ("VAL", "V")] /\
  exists r q,
    extraction w t = Ok (Some (r, q)) /\
    String.length r = Nat.min (length ra) (length ta) /\
    String.length q = Nat.min (length ra) (length ta) /\
    forall i, i < Nat.min (length ra) (length ta) ->
      exists a b,
        sra !! i = Some a /\ sta !! i = Some b /\
        (~ In (Py.upper (resn a)) (List.map fst THREE_TO_ONE) ->
         String.substring i 1 r = "X") /\
        (forall one, In (Py.upper (resn a), one) THREE_TO_ONE ->
         String.substring i 1 r = one) /\
        (~ In (Py.upper (resn b)) (List.map fst THREE_TO_ONE) ->
         String.substring i 1 q = "X") /\
        (forall one, In (Py.upper (resn b), one) THREE_TO_ONE ->
         String.substring i 1 q = one).
Proof.
  intros (E1 & E2 & E3 & E4) Hra Hta E6 E7. split; [reflexivity|].
  pose proof (sort_atoms_length _ _ E6) as L6.
  pose proof (sort_atoms_length _ _ E7) as L7.
  exists (letters (take (Nat.min (length ra) (length ta)) sra)),
    (letters (take (Nat.min (length ra) (length ta)) sta)).
  split; [|split; [|split]].
  - rewrite extraction_summary. unfold extract_summary. rewrite E1, E2, E3, E4.
    destruct ra as [|x ra]; [done|]. destruct ta as [|y ta]; [done|].
    cbn [is_empty orb]. rewrite E6, E7, L6, L7. reflexivity.
  - rewrite letters_length, length_take. lia.
  - rewrite letters_length, length_take. lia.
  - intros i Hi.
    destruct (lookup_lt_is_Some_2 sra i) as [a Ha]; [lia|].
    destruct (lookup_lt_is_Some_2 sta i) as [b Hb]; [lia|].
    exists a, b. split; [done|]. split; [done|].
    assert (Hr : String.substring i 1 (letters (take (Nat.min (length ra) (length ta)) sra))
                 = letter a).
    { apply substring_letters. by rewrite lookup_take_lt. }
    assert (Hq : String.substring i 1 (letters (take (Nat.min (length ra) (length ta)) sta))
                 = letter b).
    { apply substring_letters. by rewrite lookup_take_lt. }
    rewrite Hr, Hq.
    destruct (letter_lookup a) as [Ha1 Ha2], (letter_lookup b) as [Hb1 Hb2]. auto.
Qed.

Lemma residue_symbols_by_lookup_witness :
  exists r q,
    extraction Examples.w_unknown "t1" = Ok (Some (r, q)) /\
    String.length r = 2 /\ String.length q = 2 /\
    forall i, i < 2 ->
      exists a b,
        [Examples.CA "A" "1" "MSE"; Examples.CA "A" "2" "ala"] !! i = Some a /\
        [Examples.CA "A" "7" "HOH"; Examples.CA "A" "8" "Trp"] !! i = Some b /\
        (~ In (Py.upper (resn a)) (List.map fst THREE_TO_ONE) ->
         String.substring i 1 r = "X") /\
        (forall one, In (Py.upper (resn a), one) THREE_TO_ONE ->
         String.substring i 1 r = one) /\
        (~ In (Py.upper (resn b)) (List.map fst THREE_TO_ONE) ->
         String.substring i 1 q = "X") /\
        (forall one, In (Py.upper (resn b), one) THREE_TO_ONE ->
         String.substring i 1 q = one).
Proof.
  apply (residue_symbols_by_lookup Examples.w_unknown "t1"
           [Examples.CA "A" "2" "ala"; Examples.CA "A" "1" "MSE"]
           [Examples.CA "A" "7" "HOH"; Examples.CA "A" "8" "Trp"]
           [Examples.CA "A" "1" "MSE"; Examples.CA "A" "2" "ala"]
           [Examples.CA "A" "7" "HOH"; Examples.CA "A" "8" "Trp"]);
    try discriminate; try (vm_compute; reflexivity).
  repeat split; vm_compute; reflexivity.
Defined.

(** Selenomethionine and a water come out as "X", alanine and tryptophan,
    whatever the case of their names, as "A" and "W". *)
Example unknown_residues_ex :
  extraction Examples.w_unknown "t1" = Ok (Some ("XA", "XW")).
Proof. vm_compute. reflexivity. Qed.

Ltac in_cases H :=
  repeat first [rewrite in_app_iff in H | destruct H as [H|H] | progress simpl in H];
  try discriminate H; try (by apply extract_summary_events in H); try done.

Lemma extract_in_process w t e :
  In e (snd (extract_summary w t)) -> In e (snd (fst (process_summary w t))).
Proof.
  unfold process_summary.
  destruct (fst (extract_summary w t)) as [[[? ?]|]|]; simpl;
    [destruct (open_error w (output_filename t)); simpl|..];
    rewrite ?in_app_iff; simpl; auto.
Qed.

(** C7: every file stage 2 writes is the FASTA file of some target and
    holds, after the run, the text written: the line [>ref_aligned], the
    reference sequence, the line [>{target}_aligned], the target sequence.
    The two sequences both have the length of the smaller of the two
    selections: they are the letters of the first atoms of the sorted
    selections, the surplus of the larger one being left out; when the two
    counts differ the run has logged the warning about the mismatch. *)
Theorem written_sequences_equal_length w fs file content :
  In (EvWrite file content) (trace (snd (main w (initial fs)))) ->
  exists t r q ra ta sra sta,
    file = t +:+ "_seq_align.fasta" /\
    content = ">ref_aligned" +:+ Py.nl +:+ r +:+ Py.nl +:+
              ">" +:+ t +:+ "_aligned" +:+ Py.nl +:+ q +:+ Py.nl /\
    files (snd (main w (initial fs))) !! file = Some content /\
    selected w t ra ta /\ sort_atoms ra = Ok sra /\ sort_atoms ta = Ok sta /\
    String.length r = Nat.min (length ra) (length ta) /\
    String.length q = Nat.min (length ra) (length ta) /\
    r = letters (take (Nat.min (length ra) (length ta)) sra) /\
    q = letters (take (Nat.min (length ra) (length ta)) sta) /\
    (length ra <> length ta ->
     In (EvLog LWarning (MMismatch t (length ra) (length ta)))
        (trace (snd (main w (initial fs))))).
Proof.
  destruct (main_turns w fs) as (pre & turns & post & -> & -> & _ & Hfix).
  intros Hin. rewrite app_assoc, in_app_iff, in_app_iff, in_flat_map in Hin.
  destruct Hin as [[Hin | (t & Ht & He)] | Hin];
    [exfalso; apply (Hfix (EvWrite file content)), in_app_iff; auto | |
     exfalso; apply (Hfix (EvWrite file content)), in_app_iff; auto].
  pose proof (turns_keep_file w turns fs t file content Ht
                (summary_file_written _ _ _ _ He)) as Hfile.
  destruct (process_summary_write _ _ _ _ He) as (r & q & Hx & Ho & -> & ->).
  destruct (extraction_some _ _ _ _ Hx)
    as (ra & ta & sra & sta & Hsel & _ & _ & E6 & E7 & -> & ->).
  exists t, (letters (take (Nat.min (length ra) (length ta)) sra)),
    (letters (take (Nat.min (length ra) (length ta)) sta)), ra, ta, sra, sta.
  pose proof (sort_atoms_length _ _ E6). pose proof (sort_atoms_length _ _ E7).
  repeat split; try done; try apply Hsel.
  - rewrite letters_length, length_take. lia.
  - rewrite letters_length, length_take. lia.
  - intros Hne. rewrite app_assoc, in_app_iff, in_app_iff, in_flat_map.
    left. right. exists t. split; [done|].
    apply extract_in_process. by eapply mismatch_logged.
Qed.

Lemma written_sequences_equal_length_witness :
  exists t r q ra ta sra sta,
    "t1_seq_align.fasta" = t +:+ "_seq_align.fasta" /\
    ">ref_aligned" +:+ Py.nl +:+ "GA" +:+ Py.nl +:+
    ">t1_aligned" +:+ Py.nl +:+ "VW" +:+ Py.nl
    = ">ref_aligned" +:+ Py.nl +:+ r +:+ Py.nl +:+
      ">" +:+ t +:+ "_aligned" +:+ Py.nl +:+ q +:+ Py.nl /\
    files (snd (main Examples.w_pair (initial ∅))) !! "t1_seq_align.fasta"
    = Some (">ref_aligned" +:+ Py.nl +:+ "GA" +:+ Py.nl +:+
            ">t1_aligned" +:+ Py.nl +:+ "VW" +:+ Py.nl) /\
    selected Examples.w_pair t ra ta /\ sort_atoms ra = Ok sra /\ sort_atoms ta = Ok sta /\
    String.length r = Nat.min (length ra) (length ta) /\
    String.length q = Nat.min (length ra) (length ta) /\
    r = letters (take (Nat.min (length ra) (length ta)) sra) /\
    q = letters (take (Nat.min (length ra) (length ta)) sta) /\
    (length ra <> length ta ->
     In (EvLog LWarning (MMismatch t (length ra) (length ta)))
        (trace (snd (main Examples.w_pair (initial ∅))))).
Proof.
  apply (written_sequences_equal_length Examples.w_pair ∅
           "t1_seq_align.fasta"
           (">ref_aligned" +:+ Py.nl +:+ "GA" +:+ Py.nl +:+
            ">t1_aligned" +:+ Py.nl +:+ "VW" +:+ Py.nl)).
  vm_compute. repeat (first [left; reflexivity | right]).
Defined.

(** C8, as the specification states it, fails: the selection of [ref] near
    this target holds residue 100 and residue 100A of chain A, but no CA atom
    of the target is selected.  The extraction returns before any sort, the
    failure of the target is logged, and the run goes on to its end. *)
Lemma clash_beside_empty_selection_is_logged :
  ~ (forall w fs t ra ta a b z,
       load_error w session_file "session" = None ->
       In t (object_list w) -> is_target t = true ->
       selected w t ra ta ->
       (In a ra /\ In b ra) \/ (In a ta /\ In b ta) ->
       chain a = chain b -> Py.int (resi a) = Some z -> Py.int (resi b) = None ->
       fst (main w (initial fs)) = Raise TypeError) /\
  fst (main Examples.w_skipped (initial ∅)) = Ok tt /\
  In (EvLog LError (MExtractFailed "t1"))
     (trace (snd (main Examples.w_skipped (initial ∅)))) /\
  In (EvLog LInfo MEnd) (trace (snd (main Examples.w_skipped (initial ∅)))).
Proof.
  split; [|repeat split; vm_compute; repeat (first [left; reflexivity | right])].
  intros H.
  specialize (H Examples.w_skipped ∅ "t1"
                [Examples.CA "A" "100" "ALA"; Examples.CA "A" "100A" "GLY"] []
                (Examples.CA "A" "100" "ALA") (Examples.CA "A" "100A" "GLY") 100%Z).
  assert (E : fst (main Examples.w_skipped (initial ∅)) = Ok tt) by (vm_compute; reflexivity).
  rewrite E in H. discriminate H; try (vm_compute; reflexivity).
  - simpl. auto.
  - repeat split; vm_compute; reflexivity.
  - left. simpl. auto.
Qed.

(** C8 (amended): the sort key of an atom is (chain, int(resi)) when the
    residue identifier parses as an integer and (chain, resi) otherwise;
    comparing two such keys of one chain, one of each kind, raises
    [TypeError].  So when both selections of some target are answered and not
    empty, and one of them holds two such atoms, the sort raises, the
    exception leaves [extract_aligned_sequence] and [main], and the run ends
    with it: the failure of that target is never logged, and the run never
    reaches its closing message. *)
Theorem mixed_residue_ids_abort_run w fs t ra ta a b z :
  load_error w session_file "session" = None ->
  In t (object_list w) -> is_target t = true ->
  selected w t ra ta -> ra <> [] -> ta <> [] ->
  (In a ra /\ In b ra) \/ (In a ta /\ In b ta) ->
  chain a = chain b -> Py.int (resi a) = Some z -> Py.int (resi b) = None ->
  sort_key a = (chain a, KInt z) /\ sort_key b = (chain b, KStr (resi b)) /\
  key_lt (sort_key a) (sort_key b) = Raise TypeError /\
  key_lt (sort_key b) (sort_key a) = Raise TypeError /\
  (sort_atoms ra = Raise TypeError \/ sort_atoms ta = Raise TypeError) /\
  (forall s, fst (extract_aligned_sequence w t s) = Raise TypeError) /\
  fst (main w (initial fs)) = Raise TypeError /\
  ~ In (EvLog LError (MExtractFailed t)) (trace (snd (main w (initial fs)))) /\
  ~ In (EvLog LInfo MEnd) (trace (snd (main w (initial fs)))).
Proof.
  intros Hload Hin Htgt Hsel Hra Hta Hab Hch Ha Hb.
  assert (Hc : clash a b).
  { split; [done|]. unfold numeric. by rewrite Ha, Hb. }
  assert (Hc' : clash b a).
  { split; [done|]. unfold numeric. by rewrite Ha, Hb. }
  pose proof (extraction_clash _ _ _ _ _ _ Hsel Hra Hta Hab Hc) as Hx.
  assert (Ht : In t (target_objects w)) by (by apply in_target_objects).
  assert (Hmain : fst (main w (initial fs)) = Raise TypeError).
  { rewrite main_run, Hload, (is_empty_in _ _ Ht).
    pose proof (loop_raises w t (target_objects w)
                  (push (main_prelude ++ [EvCall CGetObjectList]) (initial fs)) Ht Hx) as Hl.
    destruct (for_each _ _ _) as [o s1]. simpl in Hl. by subst o. }
  repeat split.
  - unfold sort_key. by rewrite Ha.
  - unfold sort_key. by rewrite Hb.
  - by apply key_lt_clash.
  - by apply key_lt_clash.
  - destruct (extraction_raises _ _ _ Hx) as (_ & ra' & ta' & Hsel' & _ & _ & Hs).
    destruct Hsel as (_ & _ & E3 & E4), Hsel' as (_ & _ & E3' & E4').
    by replace ra with ra' by congruence; replace ta with ta' by congruence.
  - intros s. rewrite extract_run. simpl. by rewrite <- extraction_summary.
  - done.
  - destruct (main_trace w fs) as (pre & turns & post & -> & _ & Hfix).
    rewrite app_assoc, in_app_iff, in_app_iff, in_flat_map.
    intros [[H | (t' & _ & H)] | H].
    + apply (Hfix _ (proj2 (in_app_iff _ _ _) (or_introl H))).
    + apply process_summary_failed in H as [E H]. rewrite <- E in H. congruence.
    + apply (Hfix _ (proj2 (in_app_iff _ _ _) (or_intror H))).
  - intros H. revert Hmain H. rewrite main_run, Hload, (is_empty_in _ _ Ht).
    destruct (loop_trace w (target_objects w)
                (push (main_prelude ++ [EvCall CGetObjectList]) (initial fs))) as [k Hk].
    destruct (for_each _ _ _) as [[[]|e] s1]; [done|]. simpl in *. intros _.
    rewrite Hk. intros H. apply in_app_iff in H. simpl in H.
    repeat destruct H as [H|H]; try discriminate H; try done.
    apply in_flat_map in H as (t' & _ & H).
    unfold process_summary in H.
    destruct (fst (extract_summary w t')) as [[[? ?]|]|];
      [destruct (open_error w (output_filename t'))|..]; in_cases H.
Qed.

Lemma mixed_residue_ids_abort_run_witness :
  fst (main Examples.w_clash (initial ∅)) = Raise TypeError.
Proof.
  apply (mixed_residue_ids_abort_run Examples.w_clash ∅ "t1"
           [Examples.CA "A" "100" "ALA"; Examples.CA "A" "100A" "GLY"]
           [Examples.CA "A" "1" "ALA"]
           (Examples.CA "A" "100" "ALA") (Examples.CA "A" "100A" "GLY") 100%Z);
    try (vm_compute; reflexivity); try discriminate.
  - simpl. auto.
  - repeat split; vm_compute; reflexivity.
  - left. simpl. auto.
Defined.

(** C4, evaluated where it breaks: the first target of this session has
    residue 100 and residue 100A of one chain in its reference selection.
    The run raises [TypeError] without logging any error, and the second
    target, whose extraction succeeds, gets no file. *)
Theorem failed_target_aborts_stage2 :
  fst (main Examples.w_clash (initial ∅)) = Raise TypeError /\
  existsb is_error_log (trace (snd (main Examples.w_clash (initial ∅)))) = false /\
  extraction Examples.w_clash "t2" = Ok (Some ("A", "A")) /\
  files (snd (main Examples.w_clash (initial ∅))) !! output_filename "t2" = None.
Proof. repeat split; vm_compute; reflexivity. Qed.

End SeqAlignmentClaims.

(** ** Stage 1 *)

Section CeAlignClaims.
Import CeAlign.

Lemma align_one_run w p tr :
  align_one w p tr = (fst (align_summary w p), tr ++ snd (align_summary w p)).
Proof.
  unfold align_one, align_summary, cmd_load, cmd_cealign, try_except, bind, lift,
    raise, ret, logging, emit. simpl.
  destruct (load_error w p (base_name_of p)); simpl; [by rewrite <- !app_assoc|].
  destruct (cealign w "ref" (base_name_of p)); simpl; by rewrite <- !app_assoc.
Qed.

Lemma align_summary_calls w p :
  load_error w p (base_name_of p) = None ->
  fst (align_summary w p) = Ok tt /\ calls (snd (align_summary w p)) = align_calls p.
Proof.
  intros Hl. unfold align_summary. rewrite Hl.
  by destruct (cealign w "ref" (base_name_of p)).
Qed.

Lemma calls_app {msg} (a b : list (event msg)) : calls (a ++ b) = calls a ++ calls b.
Proof. apply flat_map_app. Qed.

(** When every load succeeds the loop takes all its turns. *)
Lemma align_loop_run w l : forall tr,
  (forall p, In p l -> load_error w p (base_name_of p) = None) ->
  exists evs,
    for_each (align_one w) l tr = (Ok tt, tr ++ evs) /\
    calls evs = flat_map align_calls l.
Proof.
  induction l as [|p l IH]; intros tr Hl.
  - exists []. by rewrite app_nil_r.
  - simpl. unfold bind. rewrite align_one_run.
    destruct (align_summary_calls w p) as [-> Hc]; [apply Hl; by left|].
    destruct (IH (tr ++ snd (align_summary w p))) as (evs & -> & Hevs).
    { intros q Hq. apply Hl. by right. }
    exists (snd (align_summary w p) ++ evs). split; [by rewrite app_assoc|].
    by rewrite calls_app, Hc, Hevs.
Qed.

(** C3, as the specification states it, fails: without [ref.pdb] the run
    stops at the first check, although no toolkit call would raise; no
    structure of the folder is loaded or aligned and no session is saved.
    Nor is a session saved when [ref.pdb] is the only structure. *)
Lemma missing_reference_aligns_nothing :
  ~ (forall w p,
       (forall f o, load_error w f o = None) -> save_error w session_file = None ->
       In p (glob w (Py.path_join (pdb_folder w) "*.pdb")) ->
       Py.basename p <> "ref.pdb" ->
       In (CLoad p (base_name_of p)) (calls (snd (main w []))) /\
       In (CCealign "ref" (base_name_of p)) (calls (snd (main w []))) /\
       In (CSave "alignment.pse") (calls (snd (main w [])))) /\
  ~ (forall w,
       (forall f o, load_error w f o = None) -> save_error w session_file = None ->
       path_exists w (ref_filepath w) = true ->
       In (CSave "alignment.pse") (calls (snd (main w [])))).
Proof.
  split; intros H.
  - assert (Hc : calls (snd (main Examples.w_noref [])) = []) by (vm_compute; reflexivity).
    destruct (H Examples.w_noref "/data/pdbs/a.pdb") as [Hl _].
    + intros f o. reflexivity.
    + reflexivity.
    + vm_compute. auto.
    + vm_compute. discriminate.
    + rewrite Hc in Hl. destruct Hl.
  - assert (Hc : calls (snd (main Examples.w_refonly [])) = []) by (vm_compute; reflexivity).
    specialize (H Examples.w_refonly). rewrite Hc in H. apply H.
    + intros f o. reflexivity.
    + reflexivity.
    + vm_compute. reflexivity.
Qed.

(** C3 (amended): when [pdbs/ref.pdb] exists, at least one other [.pdb]
    file is found and no load or save call raises, the run loads the
    reference as [ref], then for every [.pdb] file of the folder whose
    basename is not [ref.pdb], in the order found, loads it under its base
    name and calls [cealign] on [ref] and it, and at the end saves the one
    session file [alignment.pse]; these are all the toolkit calls of the
    run. *)
Theorem every_structure_aligned_and_saved w :
  path_exists w (ref_filepath w) = true ->
  pdb_files w <> [] ->
  load_error w (ref_filepath w) "ref" = None ->
  (forall p, In p (pdb_files w) -> load_error w p (base_name_of p) = None) ->
  save_error w session_file = None ->
  fst (main w []) = Ok tt /\
  calls (snd (main w [])) =
    CLoad (ref_filepath w) "ref"
    :: flat_map (fun p => [CLoad p (Py.splitext_root (Py.basename p));
                           CCealign "ref" (Py.splitext_root (Py.basename p))])
         (pdb_files w)
    ++ [CSave "alignment.pse"] /\
  (forall p, In p (glob w (Py.path_join (pdb_folder w) "*.pdb")) ->
             Py.basename p <> "ref.pdb" -> In p (pdb_files w)).
Proof.
  intros Hex Hne Href Hload Hsave.
  destruct (align_loop_run w (pdb_files w)
              ([EvLog LInfo MStart; EvOpen; EvLog LInfo (MLoadRef (ref_filepath w));
                EvCall (CLoad (ref_filepath w) "ref")]) Hload) as (evs & Hrun & Hc).
  assert (Hmain : main w [] =
    (Ok tt, [EvLog LInfo MStart; EvOpen; EvLog LInfo (MLoadRef (ref_filepath w));
             EvCall (CLoad (ref_filepath w) "ref")] ++ evs ++
            [EvLog LInfo (MSaveSession session_file); EvCall (CSave session_file);
             EvClose; EvLog LInfo MEnd])).
  { unfold main, main_body, with_block, cmd_load, cmd_save, bind, raise, ret, logging,
      emit. simpl.
    assert (Hemp : is_empty (pdb_files w) = false) by (by destruct (pdb_files w)).
    rewrite Hex, Hemp, Href. simpl. rewrite Hrun, Hsave. simpl.
    by rewrite <- !app_assoc. }
  rewrite Hmain. simpl. repeat split.
  - rewrite calls_app, Hc. simpl. done.
  - intros p Hin Hb. apply filter_In. split; [done|].
    unfold not_ref. apply negb_true_iff, String.eqb_neq. done.
Qed.

Lemma every_structure_aligned_and_saved_witness :
  calls (snd (main Examples.w_align [])) =
    [CLoad "/data/pdbs/ref.pdb" "ref";
     CLoad "/data/pdbs/b.x.pdb" "b.x"; CCealign "ref" "b.x";
     CLoad "/data/pdbs/a.pdb" "a"; CCealign "ref" "a";
     CSave "alignment.pse"].
Proof.
  refine (proj1 (proj2 (every_structure_aligned_and_saved Examples.w_align _ _ _ _ _)));
    try (vm_compute; reflexivity).
  vm_compute. discriminate.
Defined.

End CeAlignClaims.

(** ** Stage 3: the loop and [main] *)

Section MsaGeneratorRun.
Import MsaGenerator.

Lemma process_file_run w f s :
  process_file w f s = (Ok tt, loop_state w [f] s).
Proof.
  unfold process_file, parse_fasta, read_text, try_except, bind, ret, logging, emit,
    loop_state, collect, file_summary, parsed, parse_text. simpl.
  destruct (read_error w f); simpl.
  { by rewrite <- !app_assoc, !app_nil_r. }
  destruct (files s !! f) as [content|]; simpl.
  2: { by rewrite <- !app_assoc, !app_nil_r. }
  destruct (lookup _ "ref_aligned") as [ref_seq|]; simpl.
  2: { by rewrite <- !app_assoc, !app_nil_r. }
  destruct (List.filter is_target_key _) as [|[k q] [|[k' q'] rest]]; simpl;
    unfold record_pair, logging, emit; simpl; by rewrite <- ?app_assoc, ?app_nil_r.
Qed.

Lemma loop_state_cons w f l s :
  loop_state w l (loop_state w [f] s) = loop_state w (f :: l) s.
Proof.
  unfold loop_state, collect, collected_refs, collected_targets. simpl.
  rewrite !app_nil_r, <- !app_assoc. f_equal.
  - by rewrite map_app, app_assoc.
  - by rewrite fold_left_app.
Qed.

(** The loop never raises and never touches the files. *)
Lemma file_loop_run w l : forall s,
  for_each (process_file w) l s = (Ok tt, loop_state w l s).
Proof.
  induction l as [|f l IH]; intros s.
  - unfold loop_state, collect, collected_refs, collected_targets. simpl.
    rewrite !app_nil_r. by destruct s.
  - simpl. unfold bind. rewrite process_file_run, IH. by rewrite loop_state_cons.
Qed.

(** [main], case by case. *)
Lemma msa_main_run w fs :
  main w (initial fs) =
  if is_empty (fasta_files w)
  then (Ok tt, push [EvLog LInfo MStart; EvLog LError MNoFiles] (initial fs))
  else
    let s := loop_state w (fasta_files w) (push [EvLog LInfo MStart] (initial fs)) in
    let recs := collect w fs (fasta_files w) in
    match collected_refs recs with
    | [] => (Ok tt, push [EvLog LError MNoValidRef] s)
    | first_ref :: _ =>
        (Ok tt,
         {| trace := trace s ++ closing_events w first_ref (collected_refs recs)
                                  (collected_targets recs []);
            files := match open_error w output_filename with
                     | None => <[output_filename :=
                                   render_msa (build_msa first_ref (collected_targets recs []))]> fs
                     | Some _ => fs
                     end;
            ref_sequences := collected_refs recs;
            targets := collected_targets recs [] |})
    end.
Proof.
  unfold main, fasta_files. unfold bind at 1. unfold logging at 1. unfold emit at 1. simpl.
  destruct (is_empty (glob w "*_seq_align.fasta")); [reflexivity|].
  unfold bind at 1. rewrite file_loop_run. unfold bind at 1, get_state. simpl.
  destruct (collected_refs (collect w fs (glob w "*_seq_align.fasta")))
    as [|first_ref refs] eqn:Hrefs; [reflexivity|].
  unfold closing_events, all_equal, try_except, write_file, bind, raise, logging, emit.
  destruct (forallb _ _); simpl;
    destruct (open_error w output_filename); simpl;
    rewrite <- ?app_assoc, ?Hrefs; reflexivity.
Qed.

End MsaGeneratorRun.

(** ** Stage 3: parsing what was written *)

Section Fasta.
Import MsaGenerator.

Lemma single_line_no_cr s : single_line s = true -> no_cr s = true.
Proof.
  induction s as [|c s IH]; simpl; [done|].
  intros [Hc Hs]%andb_prop. rewrite (IH Hs), andb_true_r.
  apply negb_true_iff in Hc. apply negb_true_iff.
  unfold Py.is_linebreak, Py.is_cr, Py.in_range in *.
  destruct (Py.code c =? 13) eqn:E; [|done].
  apply Nat.eqb_eq in E. rewrite E in Hc. done.
Qed.

Lemma no_cr_app a b : no_cr (a +:+ b) = no_cr a && no_cr b.
Proof.
  induction a as [|c a IH]; [done|]. rewrite sapp_cons. simpl.
  by rewrite IH, andb_assoc.
Qed.

Lemma universal_newlines_id s : no_cr s = true -> Py.universal_newlines s = s.
Proof.
  induction s as [|c s IH]; simpl; [done|].
  intros [Hc Hs]%andb_prop. apply negb_true_iff in Hc. rewrite Hc. by rewrite IH.
Qed.

(** A line without boundary, closed by LF, is split off as it is. *)
Lemma splitlines_line l rest :
  single_line l = true ->
  Py.splitlines (l +:+ Py.nl +:+ rest) = l :: Py.splitlines rest.
Proof.
  induction l as [|c l IH]; intros Hl.
  - reflexivity.
  - simpl in Hl. apply andb_prop in Hl as [Hc Hl]. apply negb_true_iff in Hc.
    rewrite sapp_cons. simpl. rewrite Hc. by rewrite (IH Hl).
Qed.

Lemma single_line_header h : single_line h = true -> single_line (">" +:+ h) = true.
Proof. intros H. rewrite sapp_cons, sapp_nil_l. simpl. by rewrite H. Qed.

Lemma render_msa_cons item msa :
  render_msa (item :: msa) =
  (">" +:+ fst item) +:+ Py.nl +:+ (snd item +:+ Py.nl +:+ render_msa msa).
Proof. unfold render_msa. simpl. by rewrite !sapp_assoc. Qed.

(** The lines of a written MSA: a header line and a sequence line per item. *)
Lemma splitlines_render msa :
  (forall item, In item msa ->
     single_line (fst item) = true /\ single_line (snd item) = true) ->
  Py.splitlines (render_msa msa)
  = flat_map (fun item => record_lines (fst item, [snd item])) msa.
Proof.
  induction msa as [|item msa IH]; intros H; [reflexivity|].
  destruct (H item) as [Hh Hq]; [by left|].
  rewrite render_msa_cons, splitlines_line by (by apply single_line_header).
  rewrite splitlines_line by done. simpl. unfold record_lines at 1. simpl.
  rewrite IH; [done|]. intros i Hi. apply H. by right.
Qed.

Lemma no_cr_render msa :
  (forall item, In item msa ->
     single_line (fst item) = true /\ single_line (snd item) = true) ->
  no_cr (render_msa msa) = true.
Proof.
  induction msa as [|item msa IH]; intros H; [reflexivity|].
  destruct (H item) as [Hh Hq]; [by left|].
  rewrite render_msa_cons, !no_cr_app.
  rewrite (single_line_no_cr _ Hh), (single_line_no_cr _ Hq).
  rewrite IH; [done|]. intros i Hi. apply H. by right.
Qed.

(** The body lines of a record are gathered, stripped. *)
Lemma parse_body body : forall d hd sl,
  Forall (fun l => Py.startswith_gt l = false) body ->
  fold_left parse_line body (d, hd, sl) = (d, hd, sl ++ List.map Py.strip body).
Proof.
  induction body as [|l body IH]; intros d hd sl Hb; simpl.
  - by rewrite app_nil_r.
  - apply Forall_cons in Hb as [Hl Hb]. rewrite Hl, IH by done.
    by rewrite <- app_assoc.
Qed.

Lemma parse_header d hd sl h :
  parse_line (d, hd, sl) (">" +:+ h) = (flush d hd sl, Some (Py.strip h), []).
Proof. reflexivity. Qed.

Lemma parse_lines_flushed lines : parse_lines lines = flushed (fold_left parse_line lines ([], None, [])).
Proof. unfold parse_lines, flushed. by destruct (fold_left _ _ _) as [[d hd] sl]. Qed.

(** Record by record, the parser assigns the item of each record. *)
Lemma parse_records recs : forall acc,
  (forall rec, In rec recs -> Forall (fun l => Py.startswith_gt l = false) (snd rec)) ->
  flushed (fold_left parse_line (flat_map record_lines recs) acc)
  = fold_left (fun d rec => set_item d (record_item rec)) recs (flushed acc).
Proof.
  induction recs as [|[h body] recs IH]; intros [[d hd] sl] Hb; [reflexivity|].
  change (flat_map record_lines ((h, body) :: recs))
    with (((">" +:+ h) :: body) ++ flat_map record_lines recs).
  rewrite fold_left_app.
  change (fold_left parse_line ((">" +:+ h) :: body) (d, hd, sl))
    with (fold_left parse_line body (parse_line (d, hd, sl) (">" +:+ h))).
  rewrite parse_header, parse_body by (apply (Hb (h, body)); by left).
  rewrite IH by (intros rec Hr; apply Hb; by right). reflexivity.
Qed.

Lemma lookup_setitem d k v k' :
  lookup (setitem d k v) k' = if String.eqb k' k then Some v else lookup d k'.
Proof.
  induction d as [|[k0 v0] d IH]; simpl; [done|].
  destruct (String.eqb_spec k k0) as [-> | Hne]; simpl.
  - by destruct (String.eqb k' k0).
  - rewrite IH. destruct (String.eqb_spec k' k0) as [-> | _]; [|done].
    by destruct (String.eqb_spec k0 k) as [-> | _].
Qed.

Lemma lookup_snoc d k v k' :
  lookup (d ++ [(k, v)]) k' =
  match lookup d k' with
  | Some x => Some x
  | None => if String.eqb k' k then Some v else None
  end.
Proof.
  induction d as [|[k0 v0] d IH]; simpl; [done|].
  by destruct (String.eqb k' k0).
Qed.

(** Successive assignment: the last item with a key decides its value. *)
Lemma lookup_assigned items : forall d k,
  lookup (fold_left set_item items d) k =
  match lookup (rev items) k with
  | Some v => Some v
  | None => lookup d k
  end.
Proof.
  induction items as [|[k0 v0] items IH]; intros d k; simpl; [done|].
  rewrite IH, lookup_snoc. unfold set_item. simpl. rewrite lookup_setitem.
  destruct (lookup (rev items) k); [done|]. by destruct (String.eqb k k0).
Qed.

Lemma setitem_fresh d k v : lookup d k = None -> setitem d k v = d ++ [(k, v)].
Proof.
  induction d as [|[k0 v0] d IH]; simpl; [done|].
  destruct (String.eqb k k0); [done|]. intros H. by rewrite IH.
Qed.

Lemma lookup_not_in d k : ~ In k (List.map fst d) -> lookup d k = None.
Proof.
  induction d as [|[k0 v0] d IH]; simpl; [done|]. intros H.
  destruct (String.eqb_spec k k0) as [-> | _]; [tauto|]. apply IH. tauto.
Qed.

(** Assigning items with pairwise distinct new keys appends them in order. *)
Lemma assigned_distinct items : forall d,
  NoDup (List.map fst (d ++ items)) ->
  fold_left set_item items d = d ++ items.
Proof.
  induction items as [|[k v] items IH]; intros d Hnd; simpl.
  - by rewrite app_nil_r.
  - unfold set_item at 2. simpl. rewrite setitem_fresh.
    + rewrite IH; rewrite <- app_assoc; done.
    + apply lookup_not_in. rewrite map_app in Hnd. simpl in Hnd.
      apply NoDup_ListNoDup, NoDup_remove_2 in Hnd.
      intros Hin. apply Hnd, in_or_app. by left.
Qed.

Lemma flat_map_of_map {A B C} (g : A -> B) (f : B -> list C) l :
  flat_map f (List.map g l) = flat_map (fun x => f (g x)) l.
Proof. induction l as [|x l IH]; simpl; [done|]. by rewrite IH. Qed.

Lemma fold_left_of_map {A B C} (g : A -> B) (f : C -> B -> C) l : forall c,
  fold_left f (List.map g l) c = fold_left (fun c x => f c (g x)) l c.
Proof. induction l as [|x l IH]; intros c; simpl; [done|]. by rewrite IH. Qed.

Lemma fold_left_agree {A C} (f g : C -> A -> C) l : forall c,
  (forall c x, In x l -> f c x = g c x) -> fold_left f l c = fold_left g l c.
Proof.
  induction l as [|x l IH]; intros c H; simpl; [done|].
  rewrite H by (by left). apply IH. intros c' y Hy. apply H. by right.
Qed.

(** Parsing the text written for [items]: assignment of the items in turn. *)
Lemma parse_rendered items :
  (forall item, In item items ->
     single_line (fst item) = true /\ Py.strip (fst item) = fst item /\
     single_line (snd item) = true /\ Py.strip (snd item) = snd item /\
     Py.startswith_gt (snd item) = false) ->
  parse_text (render_msa items) = fold_left set_item items [].
Proof.
  intros H. unfold parse_text.
  rewrite universal_newlines_id by (apply no_cr_render; intros i Hi; by destruct (H i Hi) as (?&?&?&?&?)).
  rewrite splitlines_render by (intros i Hi; by destruct (H i Hi) as (?&?&?&?&?)).
  rewrite parse_lines_flushed.
  rewrite <- (flat_map_of_map (fun item : string * string => (fst item, [snd item]))
                record_lines).
  rewrite parse_records.
  - unfold flushed. simpl. rewrite fold_left_of_map. apply fold_left_agree.
    intros d item Hi. destruct (H item Hi) as (_ & Hh & _ & Hq & _).
    unfold record_item, set_item. simpl. by rewrite Hh, Hq, sapp_nil_r.
  - intros rec Hr. apply in_map_iff in Hr as (item & <- & Hi). simpl.
    destruct (H item Hi) as (_ & _ & _ & _ & Hgt). by repeat constructor.
Qed.

End Fasta.

(** ** Stage 3: the claims *)

Section MsaGeneratorClaims.
Import MsaGenerator.

Lemma file_summary_events w fs f e :
  In e (fst (file_summary w fs f)) ->
  match e with
  | EvLog LInfo (MProcessing _) | EvLog LError (MParseFailed _ _)
  | EvLog LError (MNoRef _) | EvLog LError (MBadShape _ _) => True
  | _ => False
  end.
Proof.
  unfold file_summary.
  destruct (parsed w fs f) as [d|x]; simpl.
  2: { intros [<- | [<- | []]]; done. }
  destruct (lookup d "ref_aligned"); simpl.
  2: { intros [<- | [<- | []]]; done. }
  destruct (List.filter is_target_key d) as [|[k q] [|[k' q'] rest]]; simpl;
    intros H; repeat destruct H as [H|H]; try subst e; done.
Qed.



Lemma keys_setitem d k v :
  NoDup (List.map fst d) -> NoDup (List.map fst (setitem d k v)).
Proof.
  intros Hd. destruct (lookup d k) eqn:Hl.
  - assert (E : List.map fst (setitem d k v) = List.map fst d); [|by rewrite E].
    clear Hd. induction d as [|[k0 v0] d IH]; simpl in *; [done|].
    destruct (String.eqb k k0); simpl; [done|]. by rewrite IH.
  - rewrite (setitem_fresh _ _ _ Hl), map_app. simpl.
    apply NoDup_app. split; [done|]. split; [|apply NoDup_singleton].
    intros x Hx [<- | []]%list_elem_of_In. apply list_elem_of_In in Hx.
    clear Hd. induction d as [|[k0 v0] d IH]; simpl in *; [done|].
    destruct (String.eqb_spec k k0) as [-> | Hne]; [done|].
    destruct Hx as [Hx | Hx]; [done | by apply IH].
Qed.

Lemma lookup_rev d k : NoDup (List.map fst d) -> lookup (rev d) k = lookup d k.
Proof.
  induction d as [|[k0 v0] d IH]; intros Hd; simpl; [done|].
  apply NoDup_cons in Hd as [Hk Hd]. rewrite lookup_snoc, IH by done.
  destruct (String.eqb_spec k k0) as [-> | _]; [|by destruct (lookup d k)].
  rewrite lookup_not_in; [done|]. intros H. by apply Hk, list_elem_of_In.
Qed.

Lemma keys_assigned items : forall d,
  NoDup (List.map fst d) -> NoDup (List.map fst (fold_left set_item items d)).
Proof.
  induction items as [|[k v] items IH]; intros d Hd; simpl; [done|].
  apply IH. by apply keys_setitem.
Qed.

(** The rows of the combined alignment: a name has the target sequence of
    the last record made under it, and [ref] the first reference sequence
    unless a record was made under that name. *)
Lemma build_msa_lookup recs first_ref k :
  lookup (build_msa first_ref (collected_targets recs [])) k =
  match lookup (rev (List.map (fun rec => (snd (fst rec), snd rec)) recs)) k with
  | Some target_seq => Some target_seq
  | None => if String.eqb k "ref" then Some first_ref else None
  end.
Proof.
  assert (Ht : collected_targets recs [] =
               fold_left set_item (List.map (fun rec => (snd (fst rec), snd rec)) recs) []).
  { unfold collected_targets. by rewrite fold_left_of_map. }
  change (build_msa first_ref (collected_targets recs []))
    with (fold_left set_item (collected_targets recs []) [("ref", first_ref)]).
  rewrite lookup_assigned, lookup_rev.
  - rewrite Ht, lookup_assigned. simpl.
    by destruct (lookup (rev _) k).
  - rewrite Ht. apply keys_assigned. constructor.
Qed.



(** C10, as the specification states it, fails: a sequence with a leading
    blank is a single-line string that does not start with '>', but the
    parser strips it. *)
Lemma blank_padded_sequence_not_restored :
  ~ (forall items : dict,
       NoDup (List.map fst items) ->
       (forall h q, In (h, q) items -> header_ok h /\ sequence_ok q) ->
       parse_text (render_msa items) = items).
Proof.
  intros H. specialize (H [("t", " A")]).
  assert (E : parse_text (render_msa [("t", " A")]) = [("t", "A")])
    by (vm_compute; reflexivity).
  rewrite E in H. discriminate H.
  - apply NoDup_ListNoDup. repeat constructor. simpl. tauto.
  - intros h q [[= <- <-] | []]. repeat split; done.
Qed.

(** C10 (amended): for every MSA dictionary whose headers are non-empty,
    single-line, free of leading and trailing white space and of a leading
    '>', and whose sequences are single-line strings free of leading and
    trailing white space that do not start with '>': when the headers are
    pairwise distinct, parsing the text (or the file) stage 3 writes gives
    exactly that dictionary; with repeated headers, the parser keeps for each
    header the sequence of its last occurrence; and this last holds for any
    input made of header lines each followed by body lines. *)
Theorem parse_inverts_writer (items : dict) :
  (forall h q, In (h, q) items ->
     header_ok h /\ single_line h = true /\ sequence_ok q /\ Py.strip q = q) ->
  (NoDup (List.map fst items) ->
     parse_text (render_msa items) = items /\
     forall w f s, open_error w f = None -> read_error w f = None ->
       fst (parse_fasta w f (snd (write_file w f (render_msa items) s))) = Ok items) /\
  (forall h, lookup (parse_text (render_msa items)) h = lookup (rev items) h) /\
  (forall recs : list (string * list string),
     (forall rec, In rec recs -> Forall (fun l => Py.startswith_gt l = false) (snd rec)) ->
     forall h, lookup (parse_lines (flat_map record_lines recs)) h
               = lookup (rev (List.map record_item recs)) h).
Proof.
  intros Hwf.
  assert (Hp : parse_text (render_msa items) = fold_left set_item items []).
  { apply parse_rendered. intros [h q] Hi.
    destruct (Hwf h q Hi) as ((_ & Hs & _) & Hl & (Hql & Hgt) & Hqs). by simpl. }
  repeat split.
  - rewrite Hp. by apply (assigned_distinct items []).
  - intros w f s Ho Hr. unfold write_file, parse_fasta, read_text, bind, ret.
    rewrite Ho. simpl. rewrite Hr, lookup_insert_eq.
    change (Ok (parse_text (render_msa items)) = Ok items).
    rewrite Hp. f_equal. by apply (assigned_distinct items []).
  - intros h. rewrite Hp, lookup_assigned. by destruct (lookup (rev items) h).
  - intros recs Hb h. rewrite parse_lines_flushed, parse_records by done.
    unfold flushed. simpl.
    rewrite <- (fold_left_of_map record_item set_item), lookup_assigned.
    by destruct (lookup _ h).
Qed.

Lemma parse_inverts_writer_witness :
  parse_text (render_msa [("ref", "AC"); ("a", "GG")]) = [("ref", "AC"); ("a", "GG")].
Proof.
  refine (proj1 (proj1 (parse_inverts_writer [("ref", "AC"); ("a", "GG")] _) _)).
  - intros h q [[= <- <-] | [[= <- <-] | []]]; repeat split; done.
  - apply NoDup_ListNoDup. repeat constructor; simpl; intuition discriminate.
Defined.

End MsaGeneratorClaims.

(** ** Properties of the trace kept by a program *)

Section Preserves.
Context {S msg : Type} `{Traced S msg}.
Variable I : list (event msg) -> Prop.

Lemma preserves_ret {A} (a : A) : preserves I (ret a).
Proof. by intros s. Qed.

Lemma preserves_raise {A} e : preserves I (@raise S A e).
Proof. by intros s. Qed.

Lemma preserves_lift {A} (o : outcome A) : preserves I (lift o).
Proof. by intros s. Qed.

Lemma preserves_bind {A B} (m : M S A) (k : A -> M S B) :
  preserves I m -> (forall a, preserves I (k a)) -> preserves I (bind m k).
Proof.
  intros Hm Hk s Hs. unfold bind. specialize (Hm s Hs).
  destruct (m s) as [[a|e] s']; simpl in *; [by apply Hk | done].
Qed.

Lemma preserves_try_except {A} (m : M S A) (h : exn -> M S A) :
  preserves I m -> (forall e, preserves I (h e)) -> preserves I (try_except m h).
Proof.
  intros Hm Hh s Hs. unfold try_except. specialize (Hm s Hs).
  destruct (m s) as [[a|e] s']; simpl in *; [done | by apply Hh].
Qed.

Lemma preserves_with_block {A} (enter leave : M S unit) (body : M S A) :
  preserves I enter -> preserves I leave -> preserves I body ->
  preserves I (with_block enter leave body).
Proof.
  intros He Hl Hb. unfold with_block. apply preserves_bind; [done|].
  intros _ s Hs. specialize (Hb s Hs). destruct (body s) as [r s']. simpl in Hb.
  specialize (Hl s' Hb). by destruct (leave s') as [[[]|e] s''].
Qed.

Lemma preserves_for_each {X} (body : X -> M S unit) (l : list X) :
  (forall x, preserves I (body x)) -> preserves I (for_each body l).
Proof.
  intros Hb. induction l as [|x l IH]; simpl.
  - apply preserves_ret.
  - apply preserves_bind; [apply Hb | by intros _].
Qed.

End Preserves.

Create HintDb preserves.
#[export] Hint Resolve preserves_ret preserves_raise preserves_lift preserves_bind
  preserves_try_except preserves_with_block preserves_for_each : preserves.

(** ** Opening the toolkit session *)

Section Sessions.

Lemma begun_snoc {msg} (pre tr : list (event msg)) e : begun pre tr -> begun pre (tr ++ [e]).
Proof. intros [rest ->]. exists (rest ++ [e]). by rewrite app_assoc. Qed.

Lemma begun_opened {msg} (pre tr : list (event msg)) :
  calls pre = [] -> begun (pre ++ [EvOpen]) tr -> session_opened_first tr.
Proof. intros Hp [rest ->]. exists pre, rest. by rewrite <- app_assoc. Qed.

Lemma quiet_trace {msg} (tr : list (event msg)) :
  Forall quiet tr -> opens_session tr = false /\ calls tr = [].
Proof.
  induction 1 as [|e tr [Ho Hc] _ [IHo IHc]]; [done|].
  unfold opens_session, calls in *. simpl. rewrite Ho, IHo, IHc.
  by destruct e.
Qed.

(** Stage 1 keeps the start of its trace. *)
Lemma ce_emit_begun pre e : preserves (begun pre) (CeAlign.emit e).
Proof. intros tr Htr. by apply begun_snoc. Qed.

#[local] Hint Resolve ce_emit_begun : preserves.

Lemma ce_align_one_begun pre w p : preserves (begun pre) (CeAlign.align_one w p).
Proof.
  unfold CeAlign.align_one, CeAlign.cmd_load, CeAlign.cmd_cealign, CeAlign.logging.
  repeat first [ apply preserves_bind; [|intros ?]
               | apply preserves_try_except; [|intros ?]
               | case_match
               | solve [auto with preserves] ].
Qed.

Lemma ce_main_opens w :
  CeAlign.path_exists w (CeAlign.ref_filepath w) = true ->
  CeAlign.is_empty (CeAlign.pdb_files w) = false ->
  begun ([EvLog LInfo CeAlign.MStart] ++ [EvOpen]) (snd (CeAlign.main w [])).
Proof.
  intros Hex Hemp.
  assert (E : CeAlign.main w [] =
              bind (with_block (ret tt) (CeAlign.emit EvClose) (CeAlign.main_body w))
                   (fun _ => CeAlign.logging LInfo CeAlign.MEnd)
                   [EvLog LInfo CeAlign.MStart; EvOpen]).
  { unfold CeAlign.main. unfold bind at 1. simpl. by rewrite Hex, Hemp. }
  rewrite E.
  enough (Hp : preserves (begun ([EvLog LInfo CeAlign.MStart] ++ [EvOpen]))
                 (bind (with_block (ret tt) (CeAlign.emit EvClose) (CeAlign.main_body w))
                       (fun _ => CeAlign.logging LInfo CeAlign.MEnd))).
  { apply (Hp [EvLog LInfo CeAlign.MStart; EvOpen]). by exists []. }
  unfold CeAlign.main_body, CeAlign.cmd_load, CeAlign.cmd_save, CeAlign.logging.
  repeat first [ apply preserves_with_block
               | apply preserves_for_each; intros ?
               | apply ce_align_one_begun
               | apply preserves_bind; [|intros ?]
               | solve [auto with preserves]
               | case_match ].
Qed.

Lemma seq_main_opens w fs :
  session_opened_first (SeqAlignment.trace (snd (SeqAlignment.main w (SeqAlignment.initial fs)))).
Proof.
  apply (begun_opened [EvLog LInfo SeqAlignment.MStart]); [done|].
  rewrite main_run. unfold SeqAlignment.main_prelude.
  destruct (SeqAlignment.load_error w SeqAlignment.session_file "session").
  { simpl. by eexists. }
  destruct (SeqAlignment.is_empty (SeqAlignment.target_objects w)).
  { simpl. by eexists. }
  destruct (loop_trace w (SeqAlignment.target_objects w)
              (SeqAlignment.push
                 ([EvLog LInfo SeqAlignment.MStart; EvOpen;
                   EvLog LInfo (SeqAlignment.MLoadSession SeqAlignment.session_file);
                   EvCall (CLoad SeqAlignment.session_file "session")] ++
                  [EvCall CGetObjectList]) (SeqAlignment.initial fs))) as [k Hk].
  destruct (for_each _ _ _) as [[[]|e] s1]; simpl in *; rewrite Hk; by eexists.
Qed.

Lemma msa_file_summary_quiet w fs f : Forall quiet (fst (MsaGenerator.file_summary w fs f)).
Proof.
  apply List.Forall_forall. intros e He. apply file_summary_events in He.
  by destruct e as [| | |[] []|].
Qed.

Lemma msa_main_quiet w fs :
  Forall quiet (MsaGenerator.trace (snd (MsaGenerator.main w (MsaGenerator.initial fs)))).
Proof.
  rewrite msa_main_run.
  destruct (MsaGenerator.is_empty (MsaGenerator.fasta_files w)).
  { simpl. by repeat constructor. }
  assert (Hl : Forall quiet (MsaGenerator.trace
            (MsaGenerator.loop_state w (MsaGenerator.fasta_files w)
               (MsaGenerator.push [EvLog LInfo MsaGenerator.MStart]
                  (MsaGenerator.initial fs))))).
  { unfold MsaGenerator.loop_state. simpl. constructor; [done|].
    apply List.Forall_forall. intros e He. apply in_flat_map in He as (f & _ & He).
    revert e He. apply List.Forall_forall, msa_file_summary_quiet. }
  cbv zeta.
  destruct (MsaGenerator.collected_refs _) as [|first_ref refs]; cbn [snd MsaGenerator.trace].
  - unfold MsaGenerator.push. cbn [MsaGenerator.trace]. apply Forall_app. split; [done|].
    by repeat constructor.
  - apply Forall_app. split; [done|]. unfold MsaGenerator.closing_events.
    destruct (MsaGenerator.all_equal _ _), (MsaGenerator.open_error w _);
      by repeat constructor.
Qed.

(** C9, as the specification states it, fails: stage 3 imports no toolkit;
    this run of it parses three files and writes the combined one without
    ever opening a session. *)
Lemma msa_generator_opens_no_session :
  ~ (forall w fs,
       opens_session
         (MsaGenerator.trace (snd (MsaGenerator.main w (MsaGenerator.initial fs)))) = true).
Proof.
  intros H. specialize (H Examples.w_msa Examples.fs_msa).
  vm_compute in H. discriminate H.
Qed.

(** C9 (amended): stage 2 always opens its toolkit session before any
    toolkit call; stage 1 does so once [ref.pdb] exists and another [.pdb]
    file is found, and otherwise ends without opening a session or calling
    the toolkit; stage 3 never opens a session and never calls the toolkit.
    Every script is a terminating function of its inputs. *)
Theorem toolkit_session_per_stage :
  (forall w fs,
     session_opened_first
       (SeqAlignment.trace (snd (SeqAlignment.main w (SeqAlignment.initial fs))))) /\
  (forall w,
     if CeAlign.path_exists w (CeAlign.ref_filepath w)
        && negb (CeAlign.is_empty (CeAlign.pdb_files w))
     then session_opened_first (snd (CeAlign.main w []))
     else opens_session (snd (CeAlign.main w [])) = false /\
          calls (snd (CeAlign.main w [])) = []) /\
  (forall w fs,
     opens_session
       (MsaGenerator.trace (snd (MsaGenerator.main w (MsaGenerator.initial fs)))) = false /\
     calls (MsaGenerator.trace (snd (MsaGenerator.main w (MsaGenerator.initial fs)))) = []).
Proof.
  split; [|split].
  - apply seq_main_opens.
  - intros w.
    destruct (CeAlign.path_exists w (CeAlign.ref_filepath w)) eqn:Hex; simpl.
    + destruct (CeAlign.is_empty (CeAlign.pdb_files w)) eqn:Hemp; simpl.
      * unfold CeAlign.main, bind, CeAlign.logging, CeAlign.emit. simpl.
        by rewrite Hex, Hemp.
      * apply (begun_opened [EvLog LInfo CeAlign.MStart]); [done|].
        by apply ce_main_opens.
    + unfold CeAlign.main, bind, CeAlign.logging, CeAlign.emit. simpl.
      by rewrite Hex.
  - intros w fs. apply quiet_trace, msa_main_quiet.
Qed.

End Sessions.

(** * Further properties of the code *)

(** ** Stage 2: the sort *)

Section SortExtras.
Import SeqAlignment.

(** X1: the sort of stage 2 returns exactly when no two atoms of the list
    share a chain while one has a numeric residue identifier and the other has
    not; when it does not return it raises [TypeError]. *)
Theorem sort_returns_iff_no_clash (l : list atom) :
  ((exists r, sort_atoms l = Ok r) <->
   (forall a b, In a l -> In b l -> ~ clash a b)) /\
  ((exists r, sort_atoms l = Ok r) \/ sort_atoms l = Raise TypeError).
Proof.
  split; [split|].
  - intros [r Hr] a b Ha Hb Hc. by rewrite (sort_atoms_clash l a b Ha Hb Hc) in Hr.
  - apply sort_atoms_no_clash.
  - destruct (sort_atoms l) as [r|e] eqn:H; [eauto|].
    right. by apply sort_atoms_raises in H as ->.
Qed.

Lemma sorted_tail_le (m : list atom) b rest :
  StronglySorted atom_le (m ++ b :: rest) -> Forall (atom_le b) rest.
Proof.
  induction m as [|x m IH]; simpl; intros H; apply StronglySorted_inv in H as [H1 H2];
    [done | by apply IH].
Qed.

Lemma key_lt_irrefl a : key_lt (sort_key a) (sort_key a) <> Ok true.
Proof.
  intros H. pose proof (key_lt_asym _ _ H) as H'. unfold atom_le in H'. congruence.
Qed.

Lemma smaller_key_first l r a b :
  sort_atoms l = Ok r -> In a l -> In b l ->
  key_lt (sort_key a) (sort_key b) = Ok true -> occurs_before a b r.
Proof.
  intros Hs Ha Hb Hlt.
  destruct (sort_atoms_ok _ _ Hs) as [Hp _]. pose proof (sort_atoms_sorted _ _ Hs) as Hsorted.
  apply (Permutation_in _ Hp) in Ha, Hb.
  apply in_split in Ha as (l1 & l2 & ->).
  apply in_app_or in Hb as [Hb | [<- | Hb]].
  - exfalso. apply in_split in Hb as (m1 & m2 & ->).
    rewrite <- app_assoc in Hsorted. simpl in Hsorted.
    apply sorted_tail_le in Hsorted. rewrite List.Forall_forall in Hsorted.
    specialize (Hsorted a). unfold atom_le in Hsorted.
    rewrite Hlt in Hsorted. discriminate Hsorted. apply in_or_app. right. by left.
  - by apply key_lt_irrefl in Hlt.
  - apply in_split in Hb as (m1 & m2 & ->). by exists l1, m1, m2.
Qed.

(** X2: within a chain, residue identifiers that parse as integers are
    ordered by their value, not as text: of two selected atoms of one chain
    the one with the smaller number stands first in the sorted list. *)
Theorem sort_orders_residues_by_number l r a b za zb :
  sort_atoms l = Ok r -> In a l -> In b l -> chain a = chain b ->
  Py.int (resi a) = Some za -> Py.int (resi b) = Some zb -> (za < zb)%Z ->
  occurs_before a b r.
Proof.
  intros Hs Ha Hb Hc Hza Hzb Hlt. apply (smaller_key_first l r a b); try done.
  unfold key_lt, sort_key. rewrite Hza, Hzb. simpl. rewrite Hc, String.eqb_refl.
  f_equal. by apply Z.ltb_lt.
Qed.

Lemma sort_orders_residues_by_number_witness :
  occurs_before (Examples.CA "A" "9" "GLY") (Examples.CA "A" "10" "ALA")
    [Examples.CA "A" "9" "GLY"; Examples.CA "A" "10" "ALA"].
Proof.
  apply (sort_orders_residues_by_number
           [Examples.CA "A" "10" "ALA"; Examples.CA "A" "9" "GLY"] _ _ _ 9%Z 10%Z);
    try (vm_compute; reflexivity); simpl; auto.
Defined.

End SortExtras.

(** ** Stage 2: what the extraction returns *)

Section ExtractionExtras.
Import SeqAlignment.

Lemma letter_cases a :
  In (letter a) ["A"; "R"; "N"; "D"; "C"; "E"; "Q"; "G"; "H"; "I"; "L"; "K"; "M"; "F";
                 "P"; "S"; "T"; "W"; "Y"; "V"; "X"].
Proof.
  unfold letter. generalize (Py.upper (resn a)). intros k.
  unfold THREE_TO_ONE. simpl.
  repeat (match goal with
          | |- context [String.eqb k ?x] => destruct (String.eqb k x); [tauto|]
          end).
  tauto.
Qed.

Lemma chars_in_app al a b : chars_in al (a +:+ b) = chars_in al a && chars_in al b.
Proof.
  induction a as [|c a IH]; [done|]. rewrite sapp_cons. simpl.
  by rewrite IH, andb_assoc.
Qed.

Lemma letters_alphabet l : chars_in residue_alphabet (letters l) = true.
Proof.
  induction l as [|a l IH]; [done|].
  rewrite letters_cons, chars_in_app, IH, andb_true_r.
  pose proof (letter_cases a) as H. simpl in H.
  repeat destruct H as [<- | H]; try reflexivity. destruct H.
Qed.

(** X3: the two sequences a successful extraction returns are written in
    the twenty one-letter codes of the table and the marker X, and in nothing
    else. *)
Theorem extracted_sequences_alphabet w t r q :
  extraction w t = Ok (Some (r, q)) ->
  chars_in residue_alphabet r = true /\ chars_in residue_alphabet q = true.
Proof.
  intros H. destruct (extraction_some _ _ _ _ H)
    as (ra & ta & sra & sta & _ & _ & _ & _ & _ & -> & ->).
  split; apply letters_alphabet.
Qed.

Lemma extracted_sequences_alphabet_witness :
  chars_in residue_alphabet "GA" = true /\ chars_in residue_alphabet "VW" = true.
Proof.
  apply (extracted_sequences_alphabet Examples.w_pair "t1"). vm_compute. reflexivity.
Defined.

(** X4: [extract_aligned_sequence] gives (None, None) exactly when the
    toolkit did not answer both selections of the target with at least one
    atom each: a selection or a model that raises, or an empty selection. *)
Theorem extraction_none_iff w t :
  extraction w t = Ok None <->
  ~ (exists ra ta, selected w t ra ta /\ ra <> [] /\ ta <> []).
Proof.
  rewrite extraction_summary. unfold extract_summary, selected. split.
  - intros H (ra & ta & (E1 & E2 & E3 & E4) & Hra & Hta). rewrite E1, E2, E3, E4 in H.
    destruct ra; [done|]. destruct ta; [done|]. simpl in H.
    destruct (sort_atoms _); [|done]. by destruct (sort_atoms _).
  - intros H.
    destruct (select_error w (ref_sel t)) eqn:E1; [done|].
    destruct (select_error w (target_sel t)) eqn:E2; [done|].
    destruct (model_of w (ref_sel t)) as [ra|] eqn:E3; [|done].
    destruct (model_of w (target_sel t)) as [ta|] eqn:E4; [|done].
    destruct (is_empty ra || is_empty ta) eqn:E5; [done|].
    exfalso. apply H. exists ra, ta. apply orb_false_elim in E5 as [Hra Hta].
    repeat split; try done; by intros ->.
Qed.

End ExtractionExtras.

(** ** Stage 2: the run *)

Section SeqAlignmentExtras.
Import SeqAlignment.

Lemma loop_frame w name l : forall s,
  (forall t, In t l -> name <> output_filename t) ->
  files (snd (for_each (process_target w) l s)) !! name = files s !! name.
Proof.
  induction l as [|x l IH]; intros s Hn; [done|].
  simpl. unfold bind.
  destruct (process_target w x s) as [o s1] eqn:Hp.
  assert (Hf : files s1 !! name = files s !! name).
  { replace s1 with (snd (process_target w x s)) by (by rewrite Hp).
    rewrite process_target_files.
    destruct (extraction w x) as [[[r q]|]|]; try done.
    destruct (open_error w (output_filename x)); [done|].
    rewrite lookup_insert_ne; [done|]. intros E. by apply (Hn x); [left|]. }
  destruct o; [|done]. rewrite IH; [done|]. intros t Ht. apply Hn. by right.
Qed.

(** X5: apart from its log file, to which every message is appended, a run
    of stage 2 leaves every file alone whose name is not
    [{target}_seq_align.fasta] for an object of the session other than [ref]
    and [session]. *)
Theorem other_files_untouched w fs name :
  name <> log_file ->
  (forall t, In t (object_list w) -> is_target t = true -> name <> t +:+ "_seq_align.fasta") ->
  files (snd (main w (initial fs))) !! name = fs !! name.
Proof.
  intros _ Hn. rewrite main_run.
  destruct (load_error w session_file "session"); [done|].
  destruct (is_empty (target_objects w)); [done|].
  pose proof (loop_frame w name (target_objects w)
                (push (main_prelude ++ [EvCall CGetObjectList]) (initial fs))) as Hf.
  destruct (for_each _ _ _) as [[[]|e] s1]; simpl in *; apply Hf;
    intros t Ht; apply in_target_objects in Ht as [? ?]; by apply Hn.
Qed.

Lemma other_files_untouched_witness :
  files (snd (main Examples.w_pair (initial {["notes.txt" := "kept"]}))) !! "notes.txt"
  = ({["notes.txt" := "kept"]} : gmap string string) !! "notes.txt".
Proof.
  apply (other_files_untouched Examples.w_pair); [discriminate|].
  intros t [<- | [<- | [<- | []]]]; vm_compute; intros; discriminate.
Defined.

(** X6: when the session cannot be loaded, or holds no object besides
    [ref] and [session], the run logs an error and returns without raising:
    no selection is made, no file but the log file is touched, and the
    closing message is not logged. *)
Theorem nothing_to_process w fs :
  load_error w session_file "session" <> None \/ target_objects w = [] ->
  fst (main w (initial fs)) = Ok tt /\
  (forall name, name <> log_file ->
     files (snd (main w (initial fs))) !! name = fs !! name) /\
  existsb is_error_log (trace (snd (main w (initial fs)))) = true /\
  (forall name expr, ~ In (CSelect name expr) (calls (trace (snd (main w (initial fs)))))) /\
  ~ In (EvLog LInfo MEnd) (trace (snd (main w (initial fs)))).
Proof.
  intros H. rewrite main_run.
  destruct (load_error w session_file "session") as [e|] eqn:Hl.
  { repeat split; simpl; try done; intros; intuition discriminate. }
  destruct H as [H | H]; [done|]. rewrite H.
  repeat split; simpl; try done; intros; intuition discriminate.
Qed.

Lemma nothing_to_process_witness :
  fst (main {| load_error := fun _ _ => Some (ToolkitError "load");
               object_list := ["ref"; "t1"];
               select_error := fun _ => None;
               model_of := fun _ => Ok [];
               open_error := fun _ => None |} (initial ∅)) = Ok tt.
Proof.
  refine (proj1 (nothing_to_process _ ∅ _)). left. discriminate.
Defined.

Lemma loop_all_turns w l : forall s,
  (forall t, In t l -> forall e, extraction w t <> Raise e) ->
  fst (for_each (process_target w) l s) = Ok tt /\
  trace (snd (for_each (process_target w) l s)) =
  trace s ++ flat_map (fun t => snd (fst (process_summary w t))) l.
Proof.
  induction l as [|x l IH]; intros s Hx.
  - simpl. by rewrite app_nil_r.
  - simpl. unfold bind.
    pose proof (process_target_outcome w x s) as Ho.
    rewrite process_target_run in *. simpl in Ho.
    destruct (extraction w x) as [v|e] eqn:Hv; [|by destruct (Hx x (or_introl eq_refl) e)].
    rewrite Ho.
    destruct (IH {| trace := trace s ++ snd (fst (process_summary w x));
                    sels := extract_sels w x (sels s);
                    files := put (snd (process_summary w x)) (files s) |}) as [H1 H2].
    { intros t Ht. apply Hx. by right. }
    split; [done|]. rewrite H2. simpl. by rewrite app_assoc.
Qed.

Lemma process_summary_fate w t :
  (forall e, extraction w t <> Raise e) ->
  In (EvLog LInfo (MProcessing t)) (snd (fst (process_summary w t))) /\
  (In (EvLog LError (MExtractFailed t)) (snd (fst (process_summary w t))) \/
   In (EvLog LInfo (MWritten (output_filename t))) (snd (fst (process_summary w t))) \/
   exists e, In (EvLog LError (MWriteFailed (output_filename t) e))
                (snd (fst (process_summary w t)))).
Proof.
  intros Hx. rewrite extraction_summary in Hx. unfold process_summary.
  destruct (fst (extract_summary w t)) as [[[r q]|]|e]; [| |by destruct (Hx e)].
  - destruct (open_error w (output_filename t)) as [e|]; simpl;
      (split; [by left|]); right; [right; exists e|left];
      right; apply in_or_app; right; simpl; auto.
  - simpl. split; [by left|]. left. right. apply in_or_app. right. by left.
Qed.

(** X7: when the session loads and no selection of any target holds two
    atoms of one chain with a numeric and a non-numeric residue identifier,
    the run returns without raising, logs its closing message, and accounts
    for every target: each one is announced and then either reported as
    failed, or its file is written, or the failure to write it is logged. *)
Theorem run_completes_without_clash w fs :
  load_error w session_file "session" = None ->
  (forall t l, In t (target_objects w) ->
     model_of w (ref_sel t) = Ok l \/ model_of w (target_sel t) = Ok l ->
     forall a b, In a l -> In b l -> ~ clash a b) ->
  fst (main w (initial fs)) = Ok tt /\
  (target_objects w <> [] -> In (EvLog LInfo MEnd) (trace (snd (main w (initial fs))))) /\
  forall t, In t (target_objects w) ->
    In (EvLog LInfo (MProcessing t)) (trace (snd (main w (initial fs)))) /\
    (In (EvLog LError (MExtractFailed t)) (trace (snd (main w (initial fs)))) \/
     In (EvLog LInfo (MWritten (output_filename t))) (trace (snd (main w (initial fs)))) \/
     exists e, In (EvLog LError (MWriteFailed (output_filename t) e))
                  (trace (snd (main w (initial fs))))).
Proof.
  intros Hload Hno.
  assert (Hx : forall t, In t (target_objects w) -> forall e, extraction w t <> Raise e).
  { intros t Ht e He.
    destruct (extraction_raises _ _ _ He) as (_ & ra & ta & (_ & _ & E3 & E4) & _ & _ & Hs).
    destruct Hs as [Hs | Hs].
    - destruct (sort_atoms_no_clash ra) as [r Hr]; [|congruence].
      apply (Hno t ra Ht). by left.
    - destruct (sort_atoms_no_clash ta) as [r Hr]; [|congruence].
      apply (Hno t ta Ht). by right. }
  rewrite main_run, Hload.
  destruct (is_empty (target_objects w)) eqn:Hemp.
  { destruct (target_objects w); [|done]. repeat split; try done. }
  destruct (loop_all_turns w (target_objects w)
              (push (main_prelude ++ [EvCall CGetObjectList]) (initial fs)) Hx) as [Ho Htr].
  destruct (for_each _ _ _) as [o s1]. simpl in Ho, Htr. subst o. simpl.
  split; [done|]. split.
  - intros _. apply in_or_app. right. right. by left.
  - intros t Ht. destruct (process_summary_fate w t (Hx t Ht)) as [H1 H2].
    assert (Hin : forall e, In e (snd (fst (process_summary w t))) ->
                            In e (trace s1 ++ [EvClose; EvLog LInfo MEnd])).
    { intros e He. apply in_or_app. left. rewrite Htr. simpl. do 5 right.
      apply in_flat_map. by exists t. }
    split; [by apply Hin|].
    destruct H2 as [H2 | [H2 | [e H2]]]; [left | right; left | right; right; exists e];
      by apply Hin.
Qed.

Lemma run_completes_without_clash_witness :
  fst (main Examples.w_pair (initial ∅)) = Ok tt.
Proof.
  refine (proj1 (run_completes_without_clash Examples.w_pair ∅ _ _)); [reflexivity|].
  intros t l [<- | []] [[= <-] | [= <-]] a b Ha Hb [Hc Hn]; simpl in Ha, Hb;
    repeat destruct Ha as [<- | Ha]; repeat destruct Hb as [<- | Hb];
    try done; vm_compute in Hc; vm_compute in Hn; congruence.
Defined.

End SeqAlignmentExtras.

Section SeqAlignmentSession.
Import SeqAlignment.

Lemma extract_summary_inside w t : Forall inside (snd (extract_summary w t)).
Proof.
  apply List.Forall_forall. intros e He. apply extract_summary_events in He.
  by destruct e.
Qed.

Lemma process_summary_inside w t : Forall inside (snd (fst (process_summary w t))).
Proof.
  pose proof (extract_summary_inside w t) as H. unfold process_summary.
  destruct (fst (extract_summary w t)) as [[[r q]|]|e];
    [destruct (open_error w (output_filename t))|..]; simpl;
    repeat first [apply Forall_cons; split; [done|] | apply Forall_app; split | done];
    by repeat constructor.
Qed.

Lemma turns_inside w l :
  Forall inside (flat_map (fun t => snd (fst (process_summary w t))) l).
Proof.
  induction l as [|t l IH]; simpl; [constructor|].
  apply Forall_app. split; [apply process_summary_inside | done].
Qed.

(** X8: whatever the toolkit answers, a run of stage 2 opens exactly one
    toolkit session and closes it exactly once, also when it returns early or
    ends with an exception; every toolkit call lies between the two. *)
Theorem seq_alignment_session_bracketed w fs :
  bracketed (trace (snd (main w (initial fs)))).
Proof.
  rewrite main_run. unfold main_prelude.
  destruct (load_error w session_file "session") as [e|].
  { exists [EvLog LInfo MStart],
      [EvLog LInfo (MLoadSession session_file); EvCall (CLoad session_file "session");
       EvLog LError (MLoadFailed e)], [].
    split; [done|]. by repeat constructor. }
  destruct (is_empty (target_objects w)).
  { exists [EvLog LInfo MStart],
      [EvLog LInfo (MLoadSession session_file); EvCall (CLoad session_file "session");
       EvCall CGetObjectList; EvLog LError MNoTargets], [].
    split; [done|]. by repeat constructor. }
  destruct (loop_trace w (target_objects w)
              (push ([EvLog LInfo MStart; EvOpen; EvLog LInfo (MLoadSession session_file);
                      EvCall (CLoad session_file "session")] ++ [EvCall CGetObjectList])
                    (initial fs))) as [k Hk].
  destruct (for_each _ _ _) as [o s1]. simpl in Hk.
  exists [EvLog LInfo MStart],
    ([EvLog LInfo (MLoadSession session_file); EvCall (CLoad session_file "session");
      EvCall CGetObjectList]
     ++ flat_map (fun t => snd (fst (process_summary w t))) (take k (target_objects w))),
    (match o with Ok _ => [EvLog LInfo MEnd] | Raise _ => [] end).
  split; [|split; [|split]].
  - destruct o as [[]|]; simpl; rewrite Hk; simpl; by rewrite <- ?app_assoc.
  - by repeat constructor.
  - apply Forall_app. split; [by repeat constructor | apply turns_inside].
  - destruct o; by repeat constructor.
Qed.

(** X9: the error "aligned region of the target is empty", which the
    extraction would log for a pairing of length zero, is never logged: the
    check before it has already turned away every empty selection. *)
Theorem empty_region_never_logged w fs t :
  ~ In (EvLog LError (MEmptyRegion t)) (trace (snd (main w (initial fs)))).
Proof.
  destruct (main_trace w fs) as (pre & turns & post & -> & _ & Hfix).
  rewrite app_assoc, in_app_iff, in_app_iff, in_flat_map.
  intros [[H | (t' & _ & H)] | H].
  - apply (Hfix _ (proj2 (in_app_iff _ _ _) (or_introl H))).
  - unfold process_summary in H.
    destruct (fst (extract_summary w t')) as [[[? ?]|]|];
      [destruct (open_error w (output_filename t'))|..];
      repeat first [rewrite in_app_iff in H | destruct H as [H|H] | progress simpl in H];
      try discriminate H; try (by apply extract_summary_events in H); done.
  - apply (Hfix _ (proj2 (in_app_iff _ _ _) (or_intror H))).
Qed.

End SeqAlignmentSession.

(** ** Stage 1: the run *)

Section CeAlignExtras.
Import CeAlign.

Lemma align_loop_trace w l : forall tr,
  exists k, snd (for_each (align_one w) l tr)
            = tr ++ flat_map (fun p => snd (align_summary w p)) (take k l).
Proof.
  induction l as [|p l IH]; intros tr.
  - exists 0. simpl. by rewrite app_nil_r.
  - simpl. unfold bind. rewrite align_one_run.
    destruct (fst (align_summary w p)).
    + destruct (IH (tr ++ snd (align_summary w p))) as [k Hk].
      exists (S k). rewrite Hk. simpl. by rewrite app_assoc.
    + exists 1. simpl. by rewrite ?take_0, app_nil_r.
Qed.

Lemma align_loop_all w l : forall tr,
  (forall p, In p l -> load_error w p (base_name_of p) = None) ->
  for_each (align_one w) l tr
  = (Ok tt, tr ++ flat_map (fun p => snd (align_summary w p)) l).
Proof.
  induction l as [|p l IH]; intros tr Hl.
  - simpl. by rewrite app_nil_r.
  - simpl. unfold bind. rewrite align_one_run.
    destruct (align_summary_calls w p) as [-> _]; [apply Hl; by left|].
    rewrite IH by (intros q Hq; apply Hl; by right). by rewrite app_assoc.
Qed.

Lemma align_loop_stops w l : forall tr,
  fst (for_each (align_one w) l tr) = Ok tt ->
  forall p, In p l -> load_error w p (base_name_of p) = None.
Proof.
  induction l as [|x l IH]; intros tr Hok p Hp; [done|].
  simpl in Hok. unfold bind in Hok. rewrite align_one_run in Hok.
  destruct (load_error w x (base_name_of x)) as [e|] eqn:Hx.
  { unfold align_summary in Hok. by rewrite Hx in Hok. }
  destruct (fst (align_summary w x)); [|done].
  destruct Hp as [<- | Hp]; [done|]. by eapply IH.
Qed.

(** The [with] block of [main], case by case. *)
Lemma ce_main_body_run w tr :
  main_body w tr =
  let tr0 := tr ++ [EvLog LInfo (MLoadRef (ref_filepath w));
                    EvCall (CLoad (ref_filepath w) "ref")] in
  match load_error w (ref_filepath w) "ref" with
  | Some e => (Raise e, tr0)
  | None =>
      match for_each (align_one w) (pdb_files w) tr0 with
      | (Raise e, tr1) => (Raise e, tr1)
      | (Ok _, tr1) =>
          (match save_error w session_file with
           | Some e => Raise e
           | None => Ok tt
           end,
           tr1 ++ [EvLog LInfo (MSaveSession session_file); EvCall (CSave session_file)])
      end
  end.
Proof.
  unfold main_body, cmd_load, cmd_save, bind, raise, ret, logging, emit. simpl.
  rewrite <- !app_assoc. simpl.
  destruct (load_error w (ref_filepath w) "ref"); [done|].
  destruct (for_each _ _ _) as [[[]|e] tr1]; [|done]. simpl. rewrite <- !app_assoc. simpl.
  by destruct (save_error w session_file).
Qed.

Lemma ce_main_run w :
  main w [] =
  if negb (path_exists w (ref_filepath w))
  then (Ok tt, [EvLog LInfo MStart; EvLog LError (MRefMissing (ref_filepath w))])
  else if is_empty (pdb_files w)
  then (Ok tt, [EvLog LInfo MStart; EvLog LError (MNoPdbFiles (pdb_folder w) ref_filename)])
  else
    match main_body w [EvLog LInfo MStart; EvOpen] with
    | (Ok _, tr) => (Ok tt, tr ++ [EvClose; EvLog LInfo MEnd])
    | (Raise e, tr) => (Raise e, tr ++ [EvClose])
    end.
Proof.
  unfold main. unfold bind at 1. simpl.
  destruct (negb _); [done|]. destruct (is_empty _); [done|].
  unfold with_block, bind, logging, emit. simpl.
  destruct (main_body w _) as [[[]|e] tr]; simpl; by rewrite <- ?app_assoc.
Qed.

Lemma align_summary_no_save w p file :
  ~ In (CSave file) (calls (snd (align_summary w p))).
Proof.
  unfold align_summary.
  destruct (load_error w p (base_name_of p)); [simpl; intuition discriminate|].
  destruct (cealign w "ref" (base_name_of p)); simpl; intuition discriminate.
Qed.

Lemma align_turns_no_save w l file :
  ~ In (CSave file) (calls (flat_map (fun p => snd (align_summary w p)) l)).
Proof.
  induction l as [|p l IH]; simpl; [tauto|].
  rewrite calls_app, in_app_iff. intros [H | H]; [by apply align_summary_no_save in H | done].
Qed.

(** X10: stage 1 calls [cmd.save] exactly when [ref.pdb] exists, another
    [.pdb] file was found, and the reference and every one of those files
    could be loaded; a failing [cealign] does not stand in the way, a failing
    load does. *)
Theorem session_saved_iff_all_loaded w :
  In (CSave "alignment.pse") (calls (snd (main w []))) <->
  path_exists w (ref_filepath w) = true /\ pdb_files w <> [] /\
  load_error w (ref_filepath w) "ref" = None /\
  forall p, In p (pdb_files w) -> load_error w p (Py.splitext_root (Py.basename p)) = None.
Proof.
  rewrite ce_main_run. split.
  - destruct (path_exists w (ref_filepath w)); simpl; [|intuition discriminate].
    destruct (is_empty (pdb_files w)) eqn:Hemp; simpl; [intuition discriminate|].
    rewrite ce_main_body_run. cbv zeta.
    destruct (load_error w (ref_filepath w) "ref") as [e|] eqn:Href.
    { simpl. intuition discriminate. }
    destruct (align_loop_trace w (pdb_files w)
                ([EvLog LInfo MStart; EvOpen] ++
                 [EvLog LInfo (MLoadRef (ref_filepath w));
                  EvCall (CLoad (ref_filepath w) "ref")])) as [k Hk].
    pose proof (align_loop_stops w (pdb_files w)
                ([EvLog LInfo MStart; EvOpen] ++
                 [EvLog LInfo (MLoadRef (ref_filepath w));
                  EvCall (CLoad (ref_filepath w) "ref")])) as Hstop.
    destruct (for_each _ _ _) as [[[]|e] tr1]; simpl in Hk, Hstop.
    + intros _. repeat split; try done.
      * intros E. by rewrite E in Hemp.
      * by apply Hstop.
    + cbn [snd]. rewrite Hk, calls_app. simpl. rewrite app_nil_r.
      intros [[=] | H]. by apply align_turns_no_save in H.
  - intros (Hex & Hne & Href & Hl). rewrite Hex. simpl.
    assert (Hemp : is_empty (pdb_files w) = false) by (by destruct (pdb_files w)).
    rewrite Hemp, ce_main_body_run, Href. cbv zeta.
    rewrite (align_loop_all w (pdb_files w) _ Hl).
    destruct (save_error w session_file); simpl;
      rewrite !calls_app; simpl; rewrite !in_app_iff; simpl; auto 10.
Qed.

(** X11: when the reference and all structure files load, a [cealign] that
    raises for one structure is logged as an error for that structure and
    the loop goes on: the run returns unless [cmd.save] raises, and for every
    structure the log holds either its RMSD, read off the result of
    [cealign], or the error of its alignment. *)
Theorem cealign_failure_logged_and_skipped w :
  path_exists w (ref_filepath w) = true ->
  load_error w (ref_filepath w) "ref" = None ->
  (forall p, In p (pdb_files w) -> load_error w p (base_name_of p) = None) ->
  (save_error w session_file = None -> fst (main w []) = Ok tt) /\
  forall p, In p (pdb_files w) ->
    match cealign w "ref" (base_name_of p) with
    | Ok result => In (EvLog LInfo (MResult (base_name_of p) (rmsd_of result))) (snd (main w []))
    | Raise e => In (EvLog LError (MCealignFailed (base_name_of p) e)) (snd (main w []))
    end.
Proof.
  intros Hex Href Hl. rewrite ce_main_run, Hex. simpl.
  destruct (is_empty (pdb_files w)) eqn:Hemp.
  { destruct (pdb_files w); [|done]. split; [done | intros p []]. }
  rewrite ce_main_body_run, Href. cbv zeta.
  rewrite (align_loop_all w (pdb_files w) _ Hl). split.
  - by intros ->.
  - intros p Hp.
    assert (Hin : forall e, In e (snd (align_summary w p)) ->
              In e (snd (match save_error w session_file with
                         | Some e0 => (Raise e0,
                             (([EvLog LInfo MStart; EvOpen] ++
                               [EvLog LInfo (MLoadRef (ref_filepath w));
                                EvCall (CLoad (ref_filepath w) "ref")]) ++
                              flat_map (fun p => snd (align_summary w p)) (pdb_files w) ++
                              [EvLog LInfo (MSaveSession session_file);
                               EvCall (CSave session_file)]) ++ [EvClose])
                         | None => (Ok tt,
                             (([EvLog LInfo MStart; EvOpen] ++
                               [EvLog LInfo (MLoadRef (ref_filepath w));
                                EvCall (CLoad (ref_filepath w) "ref")]) ++
                              flat_map (fun p => snd (align_summary w p)) (pdb_files w) ++
                              [EvLog LInfo (MSaveSession session_file);
                               EvCall (CSave session_file)]) ++ [EvClose; EvLog LInfo MEnd])
                         end))).
    { intros e He. destruct (save_error w session_file); simpl;
        do 4 right; rewrite <- app_assoc; apply in_or_app; left;
        apply in_flat_map; by exists p. }
    unfold align_summary in Hin. rewrite (Hl p Hp) in Hin.
    destruct (cealign w "ref" (base_name_of p)) as [result|e];
      destruct (save_error w session_file); simpl in *;
      rewrite <- ?app_assoc in *; apply Hin; auto 10.
Qed.

Lemma cealign_failure_logged_and_skipped_witness :
  In (EvLog LError (MCealignFailed "a" (ToolkitError "cealign")))
     (snd (main Examples.w_align [])).
Proof.
  refine (proj2 (cealign_failure_logged_and_skipped Examples.w_align _ _ _)
            "/data/pdbs/a.pdb" _); try reflexivity.
  vm_compute. auto.
Defined.

End CeAlignExtras.

Section CeAlignSession.
Import CeAlign.

Lemma align_summary_inside w p : Forall inside (snd (align_summary w p)).
Proof.
  unfold align_summary.
  destruct (load_error w p (base_name_of p)); [by repeat constructor|].
  destruct (cealign w "ref" (base_name_of p)); by repeat constructor.
Qed.

Lemma align_turns_inside w l :
  Forall inside (flat_map (fun p => snd (align_summary w p)) l).
Proof.
  induction l as [|p l IH]; simpl; [constructor|].
  apply Forall_app. split; [apply align_summary_inside | done].
Qed.

(** X12: a run of stage 1 that opens a toolkit session opens just one and
    closes it exactly once, also when a load or the save raises and the run
    ends with that exception; every toolkit call lies between the two. *)
Theorem ce_align_session_bracketed w :
  opens_session (snd (main w [])) = true -> bracketed (snd (main w [])).
Proof.
  rewrite ce_main_run.
  destruct (negb (path_exists w (ref_filepath w))); [done|].
  destruct (is_empty (pdb_files w)); [done|]. intros _.
  rewrite ce_main_body_run. cbv zeta.
  destruct (load_error w (ref_filepath w) "ref") as [e|].
  { exists [EvLog LInfo MStart],
      [EvLog LInfo (MLoadRef (ref_filepath w)); EvCall (CLoad (ref_filepath w) "ref")], [].
    split; [done|]. by repeat constructor. }
  destruct (align_loop_trace w (pdb_files w)
              ([EvLog LInfo MStart; EvOpen] ++
               [EvLog LInfo (MLoadRef (ref_filepath w));
                EvCall (CLoad (ref_filepath w) "ref")])) as [k Hk].
  destruct (for_each _ _ _) as [[[]|e] tr1]; simpl in Hk.
  - exists [EvLog LInfo MStart],
      ([EvLog LInfo (MLoadRef (ref_filepath w)); EvCall (CLoad (ref_filepath w) "ref")]
       ++ flat_map (fun p => snd (align_summary w p)) (take k (pdb_files w))
       ++ [EvLog LInfo (MSaveSession session_file); EvCall (CSave session_file)]),
      (match save_error w session_file with Some _ => [] | None => [EvLog LInfo MEnd] end).
    split; [|split; [|split]].
    + destruct (save_error w session_file); simpl; rewrite Hk; simpl;
        by rewrite <- ?app_assoc.
    + by repeat constructor.
    + repeat first [apply Forall_cons; split; [done|] | apply Forall_app; split];
        [apply align_turns_inside | by repeat constructor].
    + destruct (save_error w session_file); by repeat constructor.
  - exists [EvLog LInfo MStart],
      ([EvLog LInfo (MLoadRef (ref_filepath w)); EvCall (CLoad (ref_filepath w) "ref")]
       ++ flat_map (fun p => snd (align_summary w p)) (take k (pdb_files w))), [].
    split; [|split; [|split]].
    + simpl. rewrite Hk. simpl. by rewrite <- ?app_assoc.
    + by repeat constructor.
    + repeat first [apply Forall_cons; split; [done|]]. apply align_turns_inside.
    + constructor.
Qed.

Lemma ce_align_session_bracketed_witness : bracketed (snd (main Examples.w_align [])).
Proof. apply ce_align_session_bracketed. vm_compute. reflexivity. Defined.

End CeAlignSession.

(** ** Stage 1: the name a structure is loaded under *)

Section BaseName.

Lemma has_slash_app a b : Py.has_slash (a +:+ b) = Py.has_slash a || Py.has_slash b.
Proof.
  induction a as [|c a IH]; [done|]. rewrite sapp_cons. simpl.
  by rewrite IH, orb_assoc.
Qed.

Lemma basename_join dir name :
  Py.has_slash name = false -> Py.basename (dir +:+ "/" +:+ name) = name.
Proof.
  intros Hn. induction dir as [|c dir IH].
  - rewrite sapp_nil_l, sapp_cons, sapp_nil_l. simpl. by rewrite Hn.
  - rewrite sapp_cons. simpl. rewrite has_slash_app. simpl.
    by rewrite orb_true_r.
Qed.

Lemma before_last_dot_ext stem :
  Py.before_last_dot (stem +:+ ".pdb") = Some stem.
Proof.
  induction stem as [|c stem IH]; [reflexivity|].
  rewrite sapp_cons. simpl. by rewrite IH.
Qed.

(** X13: a structure file [dir/stem.pdb] is loaded under the name [stem],
    its file name without directory and extension; only a stem made of dots
    alone keeps the extension.  So a file other than [ref.pdb] is never
    loaded under the name [ref] of the reference. *)
Theorem object_name_is_stem dir stem :
  Py.has_slash stem = false ->
  CeAlign.base_name_of (dir +:+ "/" +:+ stem +:+ ".pdb")
    = (if Py.all_dots stem then stem +:+ ".pdb" else stem) /\
  (CeAlign.not_ref (dir +:+ "/" +:+ stem +:+ ".pdb") = true ->
   CeAlign.base_name_of (dir +:+ "/" +:+ stem +:+ ".pdb") <> "ref").
Proof.
  intros Hs.
  assert (Hb : Py.basename (dir +:+ "/" +:+ stem +:+ ".pdb") = stem +:+ ".pdb").
  { apply basename_join. rewrite has_slash_app, Hs. reflexivity. }
  assert (E : CeAlign.base_name_of (dir +:+ "/" +:+ stem +:+ ".pdb")
              = if Py.all_dots stem then stem +:+ ".pdb" else stem).
  { unfold CeAlign.base_name_of, Py.splitext_root. by rewrite Hb, before_last_dot_ext. }
  split; [done|].
  unfold CeAlign.not_ref. rewrite Hb, E. intros Hn Hr.
  destruct (Py.all_dots stem) eqn:Hd.
  - apply (f_equal String.length) in Hr. rewrite sapp_length in Hr. simpl in Hr. lia.
  - subst stem. discriminate Hn.
Qed.

Lemma object_name_is_stem_witness :
  CeAlign.base_name_of ("/data/pdbs" +:+ "/" +:+ "b.x" +:+ ".pdb") = "b.x".
Proof. refine (proj1 (object_name_is_stem "/data/pdbs" "b.x" _)). reflexivity. Defined.

End BaseName.

(** ** Stage 3: the run *)

Section MsaGeneratorExtras.
Import MsaGenerator.

Lemma file_summary_announces w fs f :
  In (EvLog LInfo (MProcessing f)) (fst (file_summary w fs f)).
Proof.
  unfold file_summary.
  destruct (parsed w fs f) as [d|]; [|by left].
  destruct (lookup d "ref_aligned"); [|by left].
  destruct (List.filter is_target_key d) as [|[k q] [|? ?]]; by left.
Qed.

(** X14: stage 3 never ends with an exception, whatever the directory
    holds: a file that cannot be read or parsed, or has not the expected
    shape, costs an error in the log, and every file found is still
    visited. *)
Theorem msa_generator_never_raises w fs :
  fst (main w (initial fs)) = Ok tt /\
  forall f, In f (fasta_files w) ->
    In (EvLog LInfo (MProcessing f)) (trace (snd (main w (initial fs)))).
Proof.
  rewrite msa_main_run.
  destruct (is_empty (fasta_files w)) eqn:Hemp.
  { destruct (fasta_files w); [|done]. by split. }
  cbv zeta.
  assert (Hin : forall f, In f (fasta_files w) ->
            In (EvLog LInfo (MProcessing f))
               (trace (loop_state w (fasta_files w)
                         (push [EvLog LInfo MStart] (initial fs))))).
  { intros f Hf. unfold loop_state. simpl. right. apply in_flat_map.
    exists f. split; [done | apply file_summary_announces]. }
  destruct (collected_refs _); (split; [done|]);
    intros f Hf; cbn [snd trace]; unfold push at 1; cbn [trace];
    apply in_or_app; left; by apply Hin.
Qed.

(** X15: apart from its log file, to which every message is appended,
    stage 3 writes [aligned.msa.fasta] and no other file; when no input file
    is valid, or the output cannot be opened, that one is left as it was,
    too. *)
Theorem only_msa_file_written w fs :
  (forall name, name <> log_file -> name <> "aligned.msa.fasta" ->
     files (snd (main w (initial fs))) !! name = fs !! name) /\
  (collected_refs (collect w fs (fasta_files w)) = [] \/
   open_error w "aligned.msa.fasta" <> None ->
   forall name, name <> log_file ->
     files (snd (main w (initial fs))) !! name = fs !! name).
Proof.
  rewrite msa_main_run.
  destruct (is_empty (fasta_files w)).
  { split; [intros name _ Hn | intros _ name _]; reflexivity. }
  cbv zeta.
  destruct (collected_refs _) as [|first_ref refs].
  { split; [intros name _ Hn | intros _ name _]; reflexivity. }
  simpl. split.
  - intros name _ Hn. destruct (open_error w output_filename); [done|].
    by rewrite lookup_insert_ne.
  - intros [[=] | H] name _. unfold output_filename.
    destruct (open_error w "aligned.msa.fasta"); [done | by destruct H].
Qed.

(** X16: in the combined alignment a name stands for the target sequence of
    the last valid file recorded under that name; the row [ref] holds the
    first reference sequence unless a target is itself named [ref], which
    then takes its place; no other name has a row. *)
Theorem merged_row recs first_ref k :
  lookup (build_msa first_ref (collected_targets recs [])) k =
  match lookup (rev (List.map (fun rec => (snd (fst rec), snd rec)) recs)) k with
  | Some target_seq => Some target_seq
  | None => if String.eqb k "ref" then Some first_ref else None
  end.
Proof. apply build_msa_lookup. Qed.

End MsaGeneratorExtras.

(** ** Stage 3: the parser on any input *)

Section ParserExtras.
Import MsaGenerator.

Lemma headless_lines lines : forall d sl sl',
  flushed (fold_left parse_line lines (d, None, sl))
  = flushed (fold_left parse_line lines (d, None, sl')).
Proof.
  induction lines as [|l lines IH]; intros d sl sl'; [reflexivity|].
  simpl. destruct (Py.startswith_gt l); [reflexivity | apply IH].
Qed.

(** X17: lines that stand before the first header line count for nothing:
    [parse_fasta] returns what it returns without them, and a text without
    any header line gives the empty dictionary. *)
Theorem lines_before_first_header_dropped junk lines :
  Forall (fun l => Py.startswith_gt l = false) junk ->
  parse_lines (junk ++ lines) = parse_lines lines /\ parse_lines junk = [].
Proof.
  intros Hj.
  assert (E : forall rest, parse_lines (junk ++ rest) = parse_lines rest).
  { intros rest. rewrite !parse_lines_flushed, fold_left_app, parse_body by done.
    apply headless_lines. }
  split; [apply E|]. by rewrite <- (app_nil_r junk), E.
Qed.

Lemma lines_before_first_header_dropped_witness :
  parse_lines (["; made by hand"; ""] ++ [">a"; "GG"]) = parse_lines [">a"; "GG"].
Proof.
  refine (proj1 (lines_before_first_header_dropped ["; made by hand"; ""] [">a"; "GG"] _)).
  by repeat constructor.
Defined.

Lemma rstrip_idem s : Py.rstrip (Py.rstrip s) = Py.rstrip s.
Proof.
  induction s as [|c s IH]; [done|]. simpl.
  destruct (Py.rstrip s) as [|d r] eqn:Hr.
  - destruct (Py.isspace c) eqn:Hc; [done|]. simpl. by rewrite Hc.
  - simpl in *. by rewrite IH.
Qed.

Lemma lstrip_head s c r : Py.lstrip s = String c r -> Py.isspace c = false.
Proof.
  induction s as [|d s IH]; simpl; [done|].
  destruct (Py.isspace d) eqn:Hd; [done|]. by intros [= <- _].
Qed.

Lemma rstrip_head c r :
  Py.isspace c = false -> exists r', Py.rstrip (String c r) = String c r'.
Proof.
  intros Hc. simpl. destruct (Py.rstrip r); [|eauto]. rewrite Hc. eauto.
Qed.

Lemma strip_idem s : Py.strip (Py.strip s) = Py.strip s.
Proof.
  unfold Py.strip. destruct (Py.lstrip s) as [|c r] eqn:Hl; [done|].
  pose proof (lstrip_head _ _ _ Hl) as Hc.
  destruct (rstrip_head c r Hc) as [r' Hr]. rewrite Hr.
  assert (E : Py.lstrip (String c r') = String c r') by (simpl; by rewrite Hc).
  rewrite E, <- Hr. apply rstrip_idem.
Qed.

Lemma stripped_keys_setitem d k v :
  (forall x, In x (List.map fst d) -> Py.strip x = x) -> Py.strip k = k ->
  forall x, In x (List.map fst (setitem d k v)) -> Py.strip x = x.
Proof.
  induction d as [|[k0 v0] d IH]; simpl; intros Hd Hk x.
  - by intros [<- | []].
  - destruct (String.eqb k k0); simpl.
    + intros [<- | Hx]; apply Hd; auto.
    + intros [<- | Hx]; [apply Hd; auto|]. apply IH; auto.
Qed.

(** X18: whatever lines it is given, [parse_fasta] returns a dictionary in
    which every header occurs once and carries no white space at either end. *)
Theorem parsed_headers_unique_and_stripped lines :
  NoDup (List.map fst (parse_lines lines)) /\
  forall h, In h (List.map fst (parse_lines lines)) -> Py.strip h = h.
Proof.
  rewrite parse_lines_flushed.
  assert (H : forall lines acc,
            (NoDup (List.map fst (fst (fst acc))) /\
             (forall x, In x (List.map fst (fst (fst acc))) -> Py.strip x = x) /\
             (forall h, snd (fst acc) = Some h -> Py.strip h = h)) ->
            NoDup (List.map fst (flushed (fold_left parse_line lines acc))) /\
            forall x, In x (List.map fst (flushed (fold_left parse_line lines acc))) ->
                      Py.strip x = x).
  { clear. induction lines as [|l lines IH]; intros [[d hd] sl] (Hn & Hs & Hh).
    - unfold flushed. simpl in *. destruct hd as [h|]; simpl; [|done].
      split; [by apply keys_setitem | apply stripped_keys_setitem; auto].
    - simpl. apply IH. destruct (Py.startswith_gt l); simpl; [|done].
      destruct hd as [h|]; simpl.
      + split; [by apply keys_setitem|]. split.
        * apply stripped_keys_setitem; auto.
        * intros h' [= <-]. apply strip_idem.
      + split; [done|]. split; [done|]. intros h' [= <-]. apply strip_idem. }
  apply H. simpl. split; [constructor|]. split; [intros x []|done].
Qed.

End ParserExtras.

(** ** From stage 2 to stage 3 *)

Section Pipeline.
Import MsaGenerator.

Lemma alphabet_char c :
  existsb (Ascii.eqb c) residue_alphabet = true ->
  Py.isspace c = false /\ Py.is_linebreak c = false /\ (Py.code c =? 62) = false.
Proof.
  unfold residue_alphabet. simpl. intros H.
  repeat (apply orb_prop in H as [H | H]; [apply Ascii.eqb_eq in H; subst c; by vm_compute|]).
  discriminate H.
Qed.

Lemma alphabet_single_line s :
  chars_in residue_alphabet s = true -> single_line s = true.
Proof.
  induction s as [|c s IH]; simpl; [done|]. intros [Hc Hs]%andb_prop.
  destruct (alphabet_char c Hc) as (_ & -> & _). by rewrite IH.
Qed.

Lemma alphabet_no_gt s :
  chars_in residue_alphabet s = true -> Py.startswith_gt s = false.
Proof.
  destruct s as [|c s]; simpl; [done|]. intros [Hc Hs]%andb_prop.
  by destruct (alphabet_char c Hc) as (_ & _ & ->).
Qed.

Lemma alphabet_rstrip s :
  chars_in residue_alphabet s = true -> Py.rstrip s = s.
Proof.
  induction s as [|c s IH]; simpl; [done|]. intros [Hc Hs]%andb_prop.
  destruct (alphabet_char c Hc) as (Hsp & _ & _). rewrite (IH Hs), Hsp. by destruct s.
Qed.

Lemma alphabet_strip s :
  chars_in residue_alphabet s = true -> Py.strip s = s.
Proof.
  intros H. unfold Py.strip.
  assert (E : Py.lstrip s = s).
  { destruct s as [|c s]; simpl in *; [done|]. apply andb_prop in H as [Hc _].
    by destruct (alphabet_char c Hc) as (-> & _ & _). }
  rewrite E. by apply alphabet_rstrip.
Qed.

Lemma single_line_app a b : single_line (a +:+ b) = single_line a && single_line b.
Proof.
  induction a as [|c a IH]; [done|]. rewrite sapp_cons. simpl.
  by rewrite IH, andb_assoc.
Qed.

Lemma rstrip_app_fixed x y :
  y <> "" -> Py.rstrip y = y -> Py.rstrip (x +:+ y) = x +:+ y.
Proof.
  intros Hy Hr. induction x as [|c x IH]; [done|].
  rewrite sapp_cons. simpl. rewrite IH.
  destruct (x +:+ y) eqn:E; [|done].
  destruct x; [by rewrite sapp_nil_l in E | by rewrite sapp_cons in E].
Qed.

Lemma lstrip_length s : String.length (Py.lstrip s) <= String.length s.
Proof.
  induction s as [|c s IH]; simpl; [done|]. destruct (Py.isspace c); simpl; lia.
Qed.

Lemma lstrip_app_fixed x y :
  Py.lstrip x = x -> Py.lstrip y = y -> Py.lstrip (x +:+ y) = x +:+ y.
Proof.
  intros Hx Hy. destruct x as [|c x]; [done|].
  rewrite sapp_cons. simpl in *. destruct (Py.isspace c); [|done].
  exfalso. pose proof (lstrip_length x) as Hl. rewrite Hx in Hl. simpl in Hl. lia.
Qed.

Lemma prefix_refl s : String.prefix s s = true.
Proof.
  induction s as [|c s IH]; simpl; [done|]. by destruct (ascii_dec c c).
Qed.

Lemma replace_skip old new s : forall k,
  String.length s <= k -> Py.replace_go old new k s = "".
Proof.
  induction s as [|c s IH]; intros k Hk; [done|].
  simpl in *. destruct k; [lia|]. apply IH. lia.
Qed.

(** Taking [old] away from [t +:+ old] gives [t] back when [old] occurs
    nowhere before the end. *)
Lemma replace_suffix old t :
  old <> "" -> free_of old t old = true -> Py.replace old "" (t +:+ old) = t.
Proof.
  intros Ho. unfold Py.replace. induction t as [|c t IH]; intros Hf.
  - rewrite sapp_nil_l. destruct old as [|c r]; [done|].
    cbn [Py.replace_go]. rewrite prefix_refl, sapp_nil_l.
    apply replace_skip. simpl. lia.
  - cbn [free_of] in Hf. apply andb_prop in Hf as [Hp Hf]. apply negb_true_iff in Hp.
    rewrite sapp_cons in *. cbn [Py.replace_go]. rewrite Hp. by rewrite IH.
Qed.

Lemma fasta_output_render t r q :
  SeqAlignment.fasta_output t r q
  = render_msa [("ref_aligned", r); (t +:+ "_aligned", q)].
Proof.
  unfold SeqAlignment.fasta_output, render_msa. simpl.
  by rewrite !sapp_assoc, ?sapp_nil_r.
Qed.

(** What stage 3 parses out of a file stage 2 wrote for the target [t]. *)
Lemma parse_stage2_file t r q :
  single_line t = true -> Py.lstrip t = t -> t <> "ref" ->
  chars_in residue_alphabet r = true -> chars_in residue_alphabet q = true ->
  parse_text (SeqAlignment.fasta_output t r q)
  = [("ref_aligned", r); (t +:+ "_aligned", q)].
Proof.
  intros Hl Hs Hn Hr Hq. rewrite fasta_output_render, parse_rendered.
  - apply (assigned_distinct _ []). simpl. apply NoDup_ListNoDup.
    apply List.NoDup_cons; [|apply List.NoDup_cons; [intros [] | apply List.NoDup_nil]].
    intros [E | []]. apply Hn. symmetry.
    by apply (sapp_inv_tail _ _ "_aligned").
  - intros item [<- | [<- | []]]; simpl.
    + repeat split; try done;
        [by apply alphabet_single_line | by apply alphabet_strip | by apply alphabet_no_gt].
    + repeat split.
      * by rewrite single_line_app, Hl.
      * unfold Py.strip. rewrite lstrip_app_fixed by done. by apply rstrip_app_fixed.
      * by apply alphabet_single_line.
      * by apply alphabet_strip.
      * by apply alphabet_no_gt.
Qed.

(** X19: stage 3 recovers from a file that stage 2 wrote for a target
    exactly what stage 2 put in: it records the reference sequence, the
    target's own name and the target sequence, and logs no error.  This holds
    for a target name other than [ref] that has no line boundary, does not
    start with white space and in which "_aligned" does not occur. *)
Theorem stage3_reads_stage2_file w f s t (ra ta : list SeqAlignment.atom) :
  read_error w f = None ->
  files s !! f = Some (SeqAlignment.fasta_output t (SeqAlignment.letters ra)
                         (SeqAlignment.letters ta)) ->
  single_line t = true -> Py.lstrip t = t -> t <> "ref" ->
  free_of "_aligned" t "_aligned" = true ->
  process_file w f s =
  (Ok tt, {| trace := trace s ++ [EvLog LInfo (MProcessing f)];
             files := files s;
             ref_sequences := ref_sequences s ++ [SeqAlignment.letters ra];
             targets := setitem (targets s) t (SeqAlignment.letters ta) |}).
Proof.
  intros Hread Hfile Hl Hs Hn Hfree. rewrite process_file_run.
  unfold loop_state, collect, file_summary, parsed. simpl.
  rewrite Hread, Hfile, parse_stage2_file by (done || apply letters_alphabet).
  assert (E : String.eqb (t +:+ "_aligned") "ref_aligned" = false).
  { apply String.eqb_neq. intros E. apply Hn. by apply (sapp_inv_tail _ _ "_aligned"). }
  simpl. unfold is_target_key. simpl. rewrite E. simpl.
  by rewrite replace_suffix.
Qed.

Lemma stage3_reads_stage2_file_witness :
  ref_sequences (snd (process_file Examples.w_msa "a_seq_align.fasta"
                        (initial {["a_seq_align.fasta" :=
                           SeqAlignment.fasta_output "a"
                             (SeqAlignment.letters [Examples.CA "A" "1" "ALA"])
                             (SeqAlignment.letters [Examples.CA "A" "5" "TRP"])]})))
  = [] ++ ["A"].
Proof.
  rewrite (stage3_reads_stage2_file Examples.w_msa "a_seq_align.fasta" _ "a"
             [Examples.CA "A" "1" "ALA"] [Examples.CA "A" "5" "TRP"]);
    try reflexivity; discriminate.
Defined.

End Pipeline.

(** ** More on the parser and on the files of stage 2 *)

Section LastExtras.

(** X20: on any input made of records, a header line each followed by body
    lines that do not start with '>', whose stripped headers are pairwise
    distinct, [parse_fasta] returns the records in order: each stripped
    header with its body lines stripped and joined, so a sequence written
    over several lines comes back as one. *)
Theorem parse_gathers_records (recs : list (string * list string)) :
  (forall rec, In rec recs -> Forall (fun l => Py.startswith_gt l = false) (snd rec)) ->
  NoDup (List.map (fun rec => Py.strip (fst rec)) recs) ->
  MsaGenerator.parse_lines (flat_map MsaGenerator.record_lines recs)
  = List.map (fun rec => (Py.strip (fst rec), Py.join (List.map Py.strip (snd rec)))) recs.
Proof.
  intros Hb Hn. rewrite parse_lines_flushed, parse_records by done.
  unfold MsaGenerator.flushed. simpl.
  rewrite <- (fold_left_of_map MsaGenerator.record_item MsaGenerator.set_item).
  rewrite (assigned_distinct _ []); [done|]. simpl.
  by rewrite List.map_map.
Qed.

Lemma parse_gathers_records_witness :
  MsaGenerator.parse_lines
    (flat_map MsaGenerator.record_lines [(" ref ", ["AC "; " GT"]); ("a", [])])
  = [("ref", "ACGT"); ("a", "")].
Proof.
  apply (parse_gathers_records [(" ref ", ["AC "; " GT"]); ("a", [])]).
  - intros rec [<- | [<- | []]]; by repeat constructor.
  - apply NoDup_ListNoDup. simpl.
    apply List.NoDup_cons; [|apply List.NoDup_cons; [intros [] | apply List.NoDup_nil]].
    intros [E | []]. vm_compute in E. discriminate E.
Defined.

(** X21: apart from its log file, a file that differs after a run of
    stage 2 is the file [{t}_seq_align.fasta] of an object [t] of the session
    other than [ref] and [session], whose extraction succeeded, and it holds
    the two sequences extracted for [t] under their headers; in particular no
    file is ever written for the reference itself. *)
Theorem files_written_for_targets_only w fs name :
  name <> SeqAlignment.log_file ->
  SeqAlignment.files (snd (SeqAlignment.main w (SeqAlignment.initial fs))) !! name
  <> fs !! name ->
  exists t r q,
    In t (SeqAlignment.object_list w) /\ t <> "ref" /\ t <> "session" /\
    name = t +:+ "_seq_align.fasta" /\
    SeqAlignment.extraction w t = Ok (Some (r, q)) /\
    SeqAlignment.files (snd (SeqAlignment.main w (SeqAlignment.initial fs))) !! name
    = Some (">ref_aligned" +:+ Py.nl +:+ r +:+ Py.nl +:+
            ">" +:+ t +:+ "_aligned" +:+ Py.nl +:+ q +:+ Py.nl).
Proof.
  intros _.
  destruct (main_turns w fs) as (pre & turns & post & _ & -> & Hturns & _).
  intros Hne.
  destruct (turns_changed_file w turns name fs Hne) as (t & content & Ht & Hs).
  pose proof (turns_keep_file w turns fs t name content Ht Hs) as Hfile.
  destruct (summary_file _ _ _ _ Hs) as (r & q & Hx & -> & ->).
  apply Hturns, in_target_objects in Ht as [Hobj Htgt].
  exists t, r, q. repeat split; try done; intros ->; discriminate Htgt.
Qed.

Lemma files_written_for_targets_only_witness :
  exists t r q,
    In t (SeqAlignment.object_list Examples.w_pair) /\ t <> "ref" /\ t <> "session" /\
    "t1_seq_align.fasta" = t +:+ "_seq_align.fasta" /\
    SeqAlignment.extraction Examples.w_pair t = Ok (Some (r, q)) /\
    SeqAlignment.files
      (snd (SeqAlignment.main Examples.w_pair (SeqAlignment.initial ∅)))
      !! "t1_seq_align.fasta"
    = Some (">ref_aligned" +:+ Py.nl +:+ r +:+ Py.nl +:+
            ">" +:+ t +:+ "_aligned" +:+ Py.nl +:+ q +:+ Py.nl).
Proof.
  apply (files_written_for_targets_only Examples.w_pair ∅ "t1_seq_align.fasta").
  - discriminate.
  - vm_compute. discriminate.
Defined.

End LastExtras.
